(** * AoC23: calibration decoder (d1.py) and dice games (d2.py)

    A shallow embedding of the two Python modules, with the Python
    primitives they rely on (indexing, slicing, [in], [split], [strip],
    [int], [str], dictionaries) written out first.

    Text is modelled as a list of characters with code points 0..255;
    Python integers are [Z]; a Python exception is a [Raise] result. *)

From Stdlib Require Import ZArith List Ascii String Bool Lia DecimalString.
From Stdlib Require Import DecimalPos Permutation.
Import ListNotations.

Local Open Scope Z_scope.
Local Open Scope list_scope.

(* ================================================================== *)
(** ** Python primitives *)
(* ================================================================== *)

Module Py.

Inductive exn : Set :=
| IndexError | ValueError | TypeError | KeyError | NotImplementedError.

Inductive result (A : Type) : Type :=
| Ok (a : A)
| Raise (e : exn).
Arguments Ok {A} a.
Arguments Raise {A} e.

Definition bind {A B : Type} (m : result A) (k : A -> result B) : result B :=
  match m with
  | Ok a => k a
  | Raise e => Raise e
  end.

Definition pystr : Set := list ascii.

(** A string literal. *)
Definition str (s : string) : pystr := list_ascii_of_string s.

(** [len(s)] *)
Definition len {A : Type} (s : list A) : Z := Z.of_nat (List.length s).

(** [ord(c)] *)
Definition ord (c : ascii) : Z := Z.of_N (N_of_ascii c).

(** [range(n)] *)
Definition range (n : Z) : list Z := map Z.of_nat (seq 0 (Z.to_nat n)).

(** [enumerate(l)] *)
Definition enumerate {A : Type} (l : list A) : list (Z * A) :=
  combine (range (len l)) l.

(** [s[i]]: a negative index counts from the end; out of range raises. *)
Definition getitem {A : Type} (s : list A) (i : Z) : result A :=
  let j := if i <? 0 then i + len s else i in
  if (j <? 0) || (len s <=? j) then Raise IndexError
  else match nth_error s (Z.to_nat j) with
       | Some x => Ok x
       | None => Raise IndexError
       end.

(** A slice bound is clipped into [0, len(s)], never raising. *)
Definition clip (n i : Z) : Z :=
  if i <? 0 then Z.max (i + n) 0 else Z.min i n.

(** [s[lo:hi]], either bound possibly omitted. *)
Definition slice {A : Type} (s : list A) (lo hi : option Z) : list A :=
  let n := len s in
  let a := match lo with None => 0 | Some i => clip n i end in
  let b := match hi with None => n | Some j => clip n j end in
  firstn (Z.to_nat (b - a)) (skipn (Z.to_nat a) s).

(** [a == b] on strings. *)
Fixpoint str_eqb (a b : pystr) : bool :=
  match a, b with
  | [], [] => true
  | x :: a', y :: b' => Ascii.eqb x y && str_eqb a' b'
  | _, _ => false
  end.

(** [x in l] for a list [l] of strings. *)
Definition list_contains (x : pystr) (l : list pystr) : bool :=
  existsb (str_eqb x) l.

(** [s.startswith(w)] *)
Fixpoint startswith (w s : pystr) : bool :=
  match w, s with
  | [], _ => true
  | _ :: _, [] => false
  | x :: w', y :: s' => Ascii.eqb x y && startswith w' s'
  end.

(** [w in s] for strings: [w] occurs in [s] as a contiguous run. *)
Fixpoint contains (w s : pystr) : bool :=
  startswith w s ||
  match s with
  | [] => false
  | _ :: s' => contains w s'
  end.

Fixpoint dropwhile {A : Type} (p : A -> bool) (s : list A) : list A :=
  match s with
  | [] => []
  | c :: s' => if p c then dropwhile p s' else s
  end.

Definition strip_by (p : ascii -> bool) (s : pystr) : pystr :=
  rev (dropwhile p (rev (dropwhile p s))).

Definition ord_in (c : ascii) (codes : list Z) : bool :=
  existsb (Z.eqb (ord c)) codes.

(** [c.isspace()] for code points below 256. *)
Definition isspace (c : ascii) : bool :=
  ord_in c [9; 10; 11; 12; 13; 28; 29; 30; 31; 32; 133; 160].

(** [s.strip()] *)
Definition strip (s : pystr) : pystr := strip_by isspace s.

(** [s.split(sep)] for a one-character separator: always at least one
    piece, empty pieces are kept. *)
Fixpoint split (sep : ascii) (s : pystr) : list pystr :=
  match s with
  | [] => [[]]
  | c :: s' =>
      if Ascii.eqb c sep then [] :: split sep s'
      else match split sep s' with
           | [] => [[c]]
           | p :: ps => (c :: p) :: ps
           end
  end.

Definition isdigit (c : ascii) : bool := (48 <=? ord c) && (ord c <=? 57).

(** The blanks [int] skips at both ends: the file separators 28..31,
    which [strip] removes, are not among them. *)
Definition int_space (c : ascii) : bool :=
  ord_in c [9; 10; 11; 12; 13; 32; 133; 160].

(** Decimal digits, single underscores allowed between two digits. *)
Fixpoint int_digits (acc : Z) (after_digit : bool) (s : pystr) : result Z :=
  match s with
  | [] => if after_digit then Ok acc else Raise ValueError
  | c :: s' =>
      if isdigit c then int_digits (10 * acc + (ord c - 48)) true s'
      else if Ascii.eqb c "_" && after_digit then int_digits acc false s'
      else Raise ValueError
  end.

(** The interpreter's limit on the digits of a number that [int] reads,
    [sys.get_int_max_str_digits()], at its default. *)
Definition max_str_digits : Z := 4300.

(** [int(s)] in base ten. A text with more digits than the limit raises
    [ValueError], as a malformed text does; the sign, the blanks around
    and the underscores do not count as digits, leading zeros do. *)
Definition int (s : pystr) : result Z :=
  let t := strip_by int_space s in
  if max_str_digits <? len (filter isdigit t) then Raise ValueError
  else match t with
       | "+"%char :: r => int_digits 0 false r
       | "-"%char :: r => bind (int_digits 0 false r) (fun v => Ok (- v))
       | _ => int_digits 0 false t
       end.

(** The decimal writing of [z]: [str(z)], also what an f-string field
    renders, for a number of at most [max_str_digits] digits (beyond
    them [str] raises; the code renders numbers below 100 only). *)
Definition repr_int (z : Z) : pystr :=
  str (NilZero.string_of_int (Z.to_int z)).

(** A [dict] with string keys: insertion-ordered association list. *)
Definition dict (V : Type) : Type := list (pystr * V).

Fixpoint dict_get {V : Type} (d : dict V) (k : pystr) : result V :=
  match d with
  | [] => Raise KeyError
  | (k', v) :: d' => if str_eqb k k' then Ok v else dict_get d' k
  end.

(** [d[k] = v]: an existing key keeps its place. *)
Fixpoint dict_set {V : Type} (d : dict V) (k : pystr) (v : V) : dict V :=
  match d with
  | [] => [(k, v)]
  | (k', v') :: d' =>
      if str_eqb k k' then (k', v) :: d' else (k', v') :: dict_set d' k v
  end.

(** Iterating a dict yields its keys in insertion order. *)
Definition dict_keys {V : Type} (d : dict V) : list pystr := map fst d.

(** What iterating an [Iterable] produces: the items it yields, then a
    normal end or an exception (a generator may raise part-way). *)
Record iterable (A : Type) : Type := Iterable {
  yielded : list A;
  raised : option exn
}.
Arguments Iterable {A} yielded raised.
Arguments yielded {A} i.
Arguments raised {A} i.

(** A list, iterated. *)
Definition iter {A : Type} (l : list A) : iterable A := Iterable l None.

End Py.

Import Py.

Declare Scope py_scope.
Notation "x <- m ;; k" := (bind m (fun x => k))
  (at level 61, m at next level, right associativity) : py_scope.
Local Open Scope py_scope.

(* ================================================================== *)
(** ** d1.py *)
(* ================================================================== *)

Module D1.

Definition word_numbers : list pystr :=
  map str ["one"; "two"; "three"; "four"; "five";
           "six"; "seven"; "eight"; "nine"]%string.

Definition numbers : list pystr := map repr_int (range 10).

(** The two loop variables [first_num] and [last_num]. *)
Record cursors : Set := Cursors {
  first_num : option Z;
  last_num : option Z
}.

Definition is_none {A : Type} (o : option A) : bool :=
  match o with None => true | Some _ => false end.

Definition both_found (st : cursors) : bool :=
  negb (is_none (first_num st)) && negb (is_none (last_num st)).

(** The two slices the inner loop compares with [word_number]. *)
Definition left_word (line : pystr) (i : Z) (word_number : pystr) : pystr :=
  slice line (Some i) (Some (i + len word_number)).

Definition right_word (line : pystr) (i : Z) (word_number : pystr) : pystr :=
  if i =? 0 then slice line (Some (- len word_number)) None
  else slice line (Some (- (i + len word_number + 1))) (Some (- i)).

(** Body of the loop over [enumerate(word_numbers)], up to its [break]
    test. *)
Definition word_body (line : pystr) (i : Z) (st : cursors)
    (number : Z) (word_number : pystr) : cursors :=
  let st1 :=
    if is_none (first_num st)
       && contains word_number (left_word line i word_number)
    then Cursors (Some (number + 1)) (last_num st) else st in
  if is_none (last_num st1)
     && contains word_number (right_word line i word_number)
  then Cursors (first_num st1) (Some (number + 1)) else st1.

Fixpoint word_loop (line : pystr) (i : Z) (ws : list (Z * pystr))
    (st : cursors) : cursors :=
  match ws with
  | [] => st
  | (number, word_number) :: ws' =>
      let st' := word_body line i st number word_number in
      if both_found st' then st' else word_loop line i ws' st'
  end.

(** Body of the loop over [range(len(line))], up to its [break] test. *)
Definition scan_body (line : pystr) (word_correction : bool) (i : Z)
    (st : cursors) : result cursors :=
  left_cursor <- getitem line i ;;
  right_cursor <- getitem line (- (i + 1)) ;;
  st1 <- (if is_none (first_num st) && list_contains [left_cursor] numbers
          then n <- int [left_cursor] ;; Ok (Cursors (Some n) (last_num st))
          else Ok st) ;;
  st2 <- (if is_none (last_num st1) && list_contains [right_cursor] numbers
          then n <- int [right_cursor] ;; Ok (Cursors (first_num st1) (Some n))
          else Ok st1) ;;
  Ok (if word_correction
      then word_loop line i (enumerate word_numbers) st2
      else st2).

Fixpoint scan_loop (line : pystr) (word_correction : bool) (idxs : list Z)
    (st : cursors) : result cursors :=
  match idxs with
  | [] => Ok st
  | i :: idxs' =>
      st' <- scan_body line word_correction i st ;;
      if both_found st' then Ok st' else scan_loop line word_correction idxs' st'
  end.

(** The state the two searches end in. *)
Definition scan (line : pystr) (word_correction : bool) : result cursors :=
  scan_loop line word_correction (range (len line)) (Cursors None None).

Definition decode_line (line : pystr) (word_correction : bool)
    : result (option Z) :=
  st <- scan line word_correction ;;
  match first_num st, last_num st with
  | None, None => Ok None
  | None, Some l => n <- int (repr_int l ++ repr_int l) ;; Ok (Some n)
  | Some f, None => n <- int (repr_int f ++ repr_int f) ;; Ok (Some n)
  | Some f, Some l => n <- int (repr_int f ++ repr_int l) ;; Ok (Some n)
  end.

(** [str(v)] of an [Optional[int]], as [print] shows it. *)
Definition repr_optional (v : option Z) : pystr :=
  match v with
  | None => str "None"
  | Some n => repr_int n
  end.

(** [total += decoded_line]: adding [None] to an [int] raises. *)
Definition iadd (total : Z) (decoded_line : option Z) : result Z :=
  match decoded_line with
  | Some n => Ok (total + n)
  | None => Raise TypeError
  end.

(** The loop of [sum_lines] over the lines of the file, threading the
    running total and the lines printed so far. *)
Fixpoint sum_loop (lines : list pystr) (word_correction : bool)
    (total : Z) (out : list pystr) : list pystr * result Z :=
  match lines with
  | [] => (out, Ok total)
  | line :: lines' =>
      match decode_line (strip line) word_correction with
      | Raise e => (out, Raise e)
      | Ok decoded_line =>
          let out' :=
            out ++ [strip line ++ str " " ++ repr_optional decoded_line] in
          match iadd total decoded_line with
          | Raise e => (out', Raise e)
          | Ok total' => sum_loop lines' word_correction total' out'
          end
      end
  end.

(** [sum_lines], on the lines the opened file iterates over (each with
    its line terminator): what it prints and what it returns. *)
Definition sum_lines (lines : list pystr) (word_correction : bool)
    : list pystr * result Z :=
  sum_loop lines word_correction 0 [].

End D1.

(* ================================================================== *)
(** ** d2.py *)
(* ================================================================== *)

Module D2.

Record DiceGroup : Set := mkDiceGroup {
  num_blue : Z;
  num_green : Z;
  num_red : Z
}.

(** The right operand of a comparison: a [DiceGroup] or anything else. *)
Inductive value : Set :=
| VDiceGroup (g : DiceGroup)
| VOther.

Definition __eq__ (self : DiceGroup) (other : value) : result bool :=
  match other with
  | VDiceGroup other =>
      Ok ((num_blue self =? num_blue other) &&
          (num_green self =? num_green other) &&
          (num_red self =? num_red other))
  | VOther => Raise NotImplementedError
  end.

Definition __gt__ (self : DiceGroup) (other : value) : result bool :=
  match other with
  | VDiceGroup other =>
      Ok ((num_blue self >? num_blue other) ||
          (num_green self >? num_green other) ||
          (num_red self >? num_red other))
  | VOther => Raise NotImplementedError
  end.

Definition __lt__ (self : DiceGroup) (other : value) : result bool :=
  match other with
  | VDiceGroup other =>
      Ok ((num_blue self <? num_blue other) ||
          (num_green self <? num_green other) ||
          (num_red self <? num_red other))
  | VOther => Raise NotImplementedError
  end.

Definition __ge__ (self : DiceGroup) (other : value) : result bool :=
  match other with
  | VDiceGroup _ =>
      b <- __gt__ self other ;; if b then Ok true else __eq__ self other
  | VOther => Raise NotImplementedError
  end.

Definition __le__ (self : DiceGroup) (other : value) : result bool :=
  match other with
  | VDiceGroup _ =>
      b <- __lt__ self other ;; if b then Ok true else __eq__ self other
  | VOther => Raise NotImplementedError
  end.

Definition power (self : DiceGroup) : Z :=
  num_red self * num_blue self * num_green self.

(** Body of the loop of [max_dice_group]. *)
Definition max_body (counts : dict Z) (group : DiceGroup) : result (dict Z) :=
  r <- dict_get counts (str "red") ;;
  let counts := dict_set counts (str "red") (Z.max r (num_red group)) in
  g <- dict_get counts (str "green") ;;
  let counts := dict_set counts (str "green") (Z.max g (num_green group)) in
  b <- dict_get counts (str "blue") ;;
  Ok (dict_set counts (str "blue") (Z.max b (num_blue group))).

Fixpoint max_loop (groups : list DiceGroup) (tail : option exn)
    (counts : dict Z) : result (dict Z) :=
  match groups with
  | [] => match tail with
          | Some e => Raise e
          | None => Ok counts
          end
  | group :: groups' =>
      counts' <- max_body counts group ;; max_loop groups' tail counts'
  end.

Definition max_dice_group (groups : iterable DiceGroup) : result DiceGroup :=
  let counts := [(str "red", 0); (str "green", 0); (str "blue", 0)] in
  counts <- max_loop (yielded groups) (raised groups) counts ;;
  b <- dict_get counts (str "blue") ;;
  g <- dict_get counts (str "green") ;;
  r <- dict_get counts (str "red") ;;
  Ok (mkDiceGroup b g r).

(** The loop over [counts] for one comma-separated [collection]: the
    first colour name it contains takes the number, then [break]. *)
Fixpoint colour_loop (collection : pystr) (colours : list pystr)
    (counts : dict Z) : result (dict Z) :=
  match colours with
  | [] => Ok counts
  | colour :: colours' =>
      if contains colour collection then
        piece <- getitem (split " " (strip collection)) 0 ;;
        n <- int piece ;;
        Ok (dict_set counts colour n)
      else colour_loop collection colours' counts
  end.

Fixpoint collection_loop (collections : list pystr) (counts : dict Z)
    : result (dict Z) :=
  match collections with
  | [] => Ok counts
  | collection :: collections' =>
      counts' <- colour_loop collection (dict_keys counts) counts ;;
      collection_loop collections' counts'
  end.

(** One pass of the outer loop of [parse_game_string], up to its [yield]. *)
Definition parse_game (game : pystr) : result DiceGroup :=
  let counts := [(str "blue", 0); (str "green", 0); (str "red", 0)] in
  counts <- collection_loop (split "," (strip game)) counts ;;
  b <- dict_get counts (str "blue") ;;
  g <- dict_get counts (str "green") ;;
  r <- dict_get counts (str "red") ;;
  Ok (mkDiceGroup b g r).

Fixpoint games_loop (games : list pystr) : iterable DiceGroup :=
  match games with
  | [] => Iterable [] None
  | game :: games' =>
      match parse_game game with
      | Raise e => Iterable [] (Some e)
      | Ok group =>
          let rest := games_loop games' in
          Iterable (group :: yielded rest) (raised rest)
      end
  end.

(** The generator [parse_game_string], run to its end. *)
Definition parse_game_string (game_string : pystr) : iterable DiceGroup :=
  match getitem (split ":" game_string) 1 with
  | Raise e => Iterable [] (Some e)
  | Ok body => games_loop (split ";" (strip body))
  end.

Fixpoint validate_loop (game : list DiceGroup) (tail : option exn)
    (bag : DiceGroup) : result bool :=
  match game with
  | [] => match tail with
          | Some e => Raise e
          | None => Ok true
          end
  | group :: game' =>
      exceeds <- __gt__ group (VDiceGroup bag) ;;
      if exceeds then Ok false else validate_loop game' tail bag
  end.

Definition validate_game (game : iterable DiceGroup) (bag : DiceGroup)
    : result bool :=
  validate_loop (yielded game) (raised game) bag.

Definition get_game_number (game_str : pystr) : result Z :=
  label <- getitem (split ":" game_str) 0 ;;
  word <- getitem (split " " label) 1 ;;
  int word.

(** The generator [validate_games_file], run to its end on the lines the
    opened file iterates over. [parse_game_string] is lazy: a line is
    first given its number, then its draws are read by [validate_game]. *)
Fixpoint validate_games_file (lines : list pystr) (bag : DiceGroup)
    : iterable (Z * bool) :=
  match lines with
  | [] => Iterable [] None
  | game_string :: lines' =>
      let game_string := strip game_string in
      let groups := parse_game_string game_string in
      match get_game_number game_string with
      | Raise e => Iterable [] (Some e)
      | Ok game_number =>
          match validate_game groups bag with
          | Raise e => Iterable [] (Some e)
          | Ok valid_game =>
              let rest := validate_games_file lines' bag in
              Iterable ((game_number, valid_game) :: yielded rest)
                       (raised rest)
          end
      end
  end.

(** The loop of [total_power_games_file], threading [total_power]. *)
Fixpoint total_power_loop (lines : list pystr) (total_power : Z)
    : result Z :=
  match lines with
  | [] => Ok total_power
  | game_string :: lines' =>
      let game_string := strip game_string in
      let groups := parse_game_string game_string in
      minimal_bag <- max_dice_group groups ;;
      total_power_loop lines' (total_power + power minimal_bag)
  end.

Definition total_power_games_file (lines : list pystr) : result Z :=
  total_power_loop lines 0.

(** The loop of the main block that adds up the numbers of the valid
    games, over what [validate_games_file] yields. *)
Fixpoint valid_total_loop (games : list (Z * bool)) (tail : option exn)
    (valid_total : Z) : result Z :=
  match games with
  | [] => match tail with
          | Some e => Raise e
          | None => Ok valid_total
          end
  | (game_number, valid_game) :: games' =>
      valid_total_loop games' tail
        (valid_total + (if valid_game then game_number else 0))
  end.

Definition valid_total (lines : list pystr) (bag : DiceGroup) : result Z :=
  let games := validate_games_file lines bag in
  valid_total_loop (yielded games) (raised games) 0.

End D2.

Import D1 D2.


(* ================================================================== *)
(** ** Vocabulary of the statements *)
(* ================================================================== *)

(** [w] occurs in [s] as a contiguous run of characters. *)
Definition occurs (w s : pystr) : Prop :=
  exists pre post, s = pre ++ w ++ post.

(** The value of a digit character. *)
Definition digit_value (c : ascii) : Z := ord c - 48.

(** The line holds an ASCII digit. *)
Definition has_digit (line : pystr) : Prop :=
  exists c, In c line /\ isdigit c = true.

(** The line holds one of the nine spelled-out digits. *)
Definition has_word (line : pystr) : Prop :=
  exists w, In w word_numbers /\ occurs w line.

(** What the two digit tests of one step do to the cursors, given the
    characters under the left and the right cursor. *)
Definition digit_step (st : cursors) (lc rc : ascii) : cursors :=
  let st1 := if is_none (first_num st) && isdigit lc
             then Cursors (Some (digit_value lc)) (last_num st) else st in
  if is_none (last_num st1) && isdigit rc
  then Cursors (first_num st1) (Some (digit_value rc)) else st1.

(** Step [i] offers nothing to the forward search. *)
Definition left_silent (line : pystr) (wc : bool) (i : Z) : Prop :=
  (forall c, getitem line i = Ok c -> isdigit c = false) /\
  (wc = true -> forall w, In w word_numbers ->
     contains w (left_word line i w) = false).

(** Step [i] offers nothing to the backward search. *)
Definition right_silent (line : pystr) (wc : bool) (i : Z) : Prop :=
  (forall c, getitem line (- (i + 1)) = Ok c -> isdigit c = false) /\
  (wc = true -> forall w, In w word_numbers ->
     contains w (right_word line i w) = false).

(** A found value is a decimal digit, and is 0 only for a character 0 of
    the line. *)
Definition digit_of (line : pystr) (v : option Z) : Prop :=
  forall a, v = Some a -> 0 <= a <= 9 /\ (a = 0 -> In "0"%char line).

Definition valid (line : pystr) (st : cursors) : Prop :=
  digit_of line (first_num st) /\ digit_of line (last_num st).

(** The total the specification describes for [sum_lines]: every line
    stripped and decoded, a line without a value counting for 0. *)
Definition decoded_or_zero (line : pystr) (wc : bool) : Z :=
  match decode_line (strip line) wc with
  | Ok (Some v) => v
  | _ => 0
  end.

Definition sum_lines_spec (lines : list pystr) (wc : bool) : Z :=
  fold_right (fun line acc => decoded_or_zero line wc + acc) 0 lines.

(** The line terminator. *)
Definition newline : ascii := "010"%char.

(** Every colour of the draw is within the bag. *)
Definition fits_within (draw bag : DiceGroup) : Prop :=
  num_blue draw <= num_blue bag /\
  num_green draw <= num_green bag /\
  num_red draw <= num_red bag.

(** The invariant of a [DiceGroup]: no count is negative. *)
Definition nonneg (g : DiceGroup) : Prop :=
  0 <= num_blue g /\ 0 <= num_green g /\ 0 <= num_red g.

(** The largest of [a] and the numbers of [l], as the loop of
    [max_dice_group] accumulates it. *)
Definition running_max (l : list Z) (a : Z) : Z := fold_left Z.max l a.

Inductive colour : Set := Blue | Green | Red.

Definition count (c : colour) (g : DiceGroup) : Z :=
  match c with
  | Blue => num_blue g
  | Green => num_green g
  | Red => num_red g
  end.

(** The group [g] with colour [c] set to [n]. *)
Definition put (c : colour) (n : Z) (g : DiceGroup) : DiceGroup :=
  match c with
  | Blue => mkDiceGroup n (num_green g) (num_red g)
  | Green => mkDiceGroup (num_blue g) n (num_red g)
  | Red => mkDiceGroup (num_blue g) (num_green g) n
  end.

(** The dictionary [counts] of [parse_game_string] holding the group [g]. *)
Definition counts_dict (g : DiceGroup) : dict Z :=
  [(str "blue", num_blue g); (str "green", num_green g);
   (str "red", num_red g)].

(** The colour a token names: the first of "blue", "green", "red" that
    it contains. *)
Definition colour_of (token : pystr) : option colour :=
  if contains (str "blue") token then Some Blue
  else if contains (str "green") token then Some Green
  else if contains (str "red") token then Some Red
  else None.

(** The number a token carries: the text before its first space, once the
    token is stripped, read by [int]. *)
Definition token_count (token : pystr) : result Z :=
  piece <- getitem (split " " (strip token)) 0 ;; int piece.

(** The comma-separated tokens of a draw. *)
Definition tokens_of (draw : pystr) : list pystr := split "," (strip draw).

(** The group [g] is what the draw says: a colour no token names is 0,
    any other colour has the number of the last token that names it. *)
Definition draw_denotes (draw : pystr) (g : DiceGroup) : Prop :=
  forall c : colour,
    (Forall (fun t => colour_of t <> Some c) (tokens_of draw) /\
     count c g = 0) \/
    (exists pre t post,
       tokens_of draw = pre ++ t :: post /\
       colour_of t = Some c /\
       Forall (fun t' => colour_of t' <> Some c) post /\
       token_count t = Ok (count c g)).

(** Some token of the draw names a colour but carries no number. *)
Definition draw_fails (draw : pystr) : Prop :=
  exists t, In t (tokens_of draw) /\ colour_of t <> None /\
            token_count t = Raise ValueError.

(** The text after the first occurrence of [sep]. *)
Fixpoint after_first (sep : ascii) (s : pystr) : option pystr :=
  match s with
  | [] => None
  | c :: s' => if Ascii.eqb c sep then Some s' else after_first sep s'
  end.

(** [parse_game_string] as the specification words it: the line is cut at
    its first colon and all that follows is split on semicolons into
    draws. (Blanks around the remainder and the reading of one draw are
    taken as the code has them.) *)
Definition parse_game_string_spec (game_string : pystr)
    : iterable DiceGroup :=
  match after_first ":" game_string with
  | None => Iterable [] (Some IndexError)
  | Some remainder => games_loop (split ";" (strip remainder))
  end.

(** [fits_within], decided. *)
Definition fitsb (draw bag : DiceGroup) : bool :=
  (num_blue draw <=? num_blue bag) &&
  (num_green draw <=? num_green bag) &&
  (num_red draw <=? num_red bag).

(** The per-colour larger of two groups. *)
Definition group_max (a b : DiceGroup) : DiceGroup :=
  mkDiceGroup (Z.max (num_blue a) (num_blue b))
              (Z.max (num_green a) (num_green b))
              (Z.max (num_red a) (num_red b)).

(** [sep.join(pieces)] *)
Fixpoint join (sep : pystr) (pieces : list pystr) : pystr :=
  match pieces with
  | [] => []
  | [p] => p
  | p :: ps => p ++ sep ++ join sep ps
  end.

Definition colour_name (c : colour) : pystr :=
  match c with
  | Blue => str "blue"
  | Green => str "green"
  | Red => str "red"
  end.

(** A games file as its format describes it: a game is a number and a
    sequence of draws, a draw is a sequence of counts of a colour,
    written "Game 3: 1 red, 2 blue; 4 green". *)
Definition handful : Set := (Z * colour)%type.

Definition render_count (h : handful) : pystr :=
  repr_int (fst h) ++ str " " ++ colour_name (snd h).

Definition render_draw (d : list handful) : pystr :=
  join (str ", ") (map render_count d).

Definition render_game (g : Z * list (list handful)) : pystr :=
  str "Game " ++ repr_int (fst g) ++ str ": " ++
  join (str "; ") (map render_draw (snd g)).

(** The group a written draw stands for: what is not named is 0, the
    last count of a colour named again is the one that stays. *)
Definition group_of (d : list handful) : DiceGroup :=
  fold_left (fun g h => put (snd h) (fst h) g) d (mkDiceGroup 0 0 0).

(** A number that [int] reads back: written with no more digits than
    the interpreter's limit. *)
Definition short (z : Z) : Prop := Z.abs z < 10 ^ max_str_digits.

(** A written game has a draw, each of its draws has a count, and its
    number and its counts are short. *)
Definition well_formed (g : Z * list (list handful)) : Prop :=
  snd g <> [] /\ Forall (fun d => d <> []) (snd g) /\
  short (fst g) /\ Forall (Forall (fun h => short (fst h))) (snd g).

(** The characters of a written count before the colour name. *)
Definition plain (c : ascii) : bool :=
  isdigit c || Ascii.eqb c "-" || Ascii.eqb c " ".

(** A text with a first and a last character, neither of them blank:
    [strip] leaves it as it is. *)
Definition solid (s : pystr) : Prop :=
  (exists c r, s = c :: r /\ isspace c = false) /\
  (exists r c, s = r ++ [c] /\ isspace c = false).

(** The line is the written game [g], blanks (a line terminator, say)
    allowed around it. *)
Definition written (line : pystr) (g : Z * list (list handful)) : Prop :=
  well_formed g /\
  exists pad trail,
    Forall (fun c => isspace c = true) pad /\
    Forall (fun c => isspace c = true) trail /\
    line = pad ++ render_game g ++ trail.

(** Every draw of the game is within the bag. *)
Definition game_fits (bag : DiceGroup) (g : Z * list (list handful)) : bool :=
  forallb (fun d => fitsb (group_of d) bag) (snd g).

(** The power of the per-colour largest counts of the game's draws. *)
Definition game_power (g : Z * list (list handful)) : Z :=
  let groups := map group_of (snd g) in
  power (mkDiceGroup (running_max (map num_blue groups) 0)
                     (running_max (map num_green groups) 0)
                     (running_max (map num_red groups) 0)).

Definition sum_Z (l : list Z) : Z := fold_right Z.add 0 l.

(** A token of a line: an ASCII digit or, under word correction, one of
    the nine spelled-out digits, with the value it stands for. *)
Inductive token (wc : bool) : pystr -> Z -> Prop :=
| token_digit (c : ascii) :
    isdigit c = true -> token wc [c] (digit_value c)
| token_word (k : Z) (w : pystr) :
    wc = true -> In (k, w) (enumerate word_numbers) -> token wc w (k + 1).

(** [tok] stands in the line between [pre] and [post], and no token of
    the line starts further left. *)
Definition first_token (wc : bool) (line pre tok post : pystr) : Prop :=
  line = pre ++ tok ++ post /\
  forall pre' tok' post' v',
    line = pre' ++ tok' ++ post' -> token wc tok' v' -> len pre <= len pre'.

(** [tok] stands in the line between [pre] and [post], and no token of
    the line ends further right. *)
Definition last_token (wc : bool) (line pre tok post : pystr) : Prop :=
  line = pre ++ tok ++ post /\
  forall pre' tok' post' v',
    line = pre' ++ tok' ++ post' -> token wc tok' v' -> len post <= len post'.

(** The cursors after step [i] of the scan, given the characters under
    the left and the right cursor. *)
Definition step_state (line : pystr) (wc : bool) (i : Z) (st : cursors)
    (lc rc : ascii) : cursors :=
  if wc
  then word_loop line i (enumerate word_numbers) (digit_step st lc rc)
  else digit_step st lc rc.

(* ================================================================== *)
(** ** Facts about the primitives *)
(* ================================================================== *)

Section PyFacts.

Lemma len_app {A : Type} (a b : list A) : len (a ++ b) = len a + len b.
Proof. unfold len. rewrite length_app. lia. Qed.

Lemma len_nonneg {A : Type} (a : list A) : 0 <= len a.
Proof. unfold len. lia. Qed.

Lemma len_cons {A : Type} (x : A) (a : list A) : len (x :: a) = len a + 1.
Proof. unfold len. simpl. lia. Qed.

Lemma str_eqb_eq (a b : pystr) : str_eqb a b = true <-> a = b.
Proof.
  revert b. induction a as [|x a IH]; intros [|y b]; simpl;
    try (split; [discriminate | congruence]); try tauto.
  rewrite andb_true_iff, Ascii.eqb_eq, IH.
  split; [intros [-> ->]; reflexivity | intros H; inversion H; auto].
Qed.

Lemma startswith_app (w s : pystr) :
  startswith w s = true <-> exists post, s = w ++ post.
Proof.
  revert s. induction w as [|x w IH]; intros s; simpl.
  - split; [intros _; exists s; reflexivity | reflexivity].
  - destruct s as [|y s].
    + split; [discriminate | intros [post H]; discriminate].
    + rewrite andb_true_iff, Ascii.eqb_eq, IH. split.
      * intros [-> [post ->]]. exists post. reflexivity.
      * intros [post H]. inversion H. split; [reflexivity | eauto].
Qed.

Lemma contains_occurs (w s : pystr) : contains w s = true <-> occurs w s.
Proof.
  unfold occurs. induction s as [|y s IH].
  - simpl. rewrite orb_false_r, startswith_app. split.
    + intros [post H]. exists [], post. exact H.
    + intros [pre [post H]]. destruct pre; simpl in H.
      * eauto.
      * discriminate.
  - cbn [contains]. rewrite orb_true_iff, startswith_app, IH. split.
    + intros [[post H] | [pre [post H]]].
      * exists [], post. exact H.
      * exists (y :: pre), post. simpl. congruence.
    + intros [[|x pre] [post H]]; simpl in H.
      * left. eauto.
      * right. inversion H. eauto.
Qed.

Lemma contains_not_occurs (w s : pystr) :
  ~ occurs w s -> contains w s = false.
Proof.
  intros H. destruct (contains w s) eqn:E; [|reflexivity].
  apply contains_occurs in E. contradiction.
Qed.

Lemma occurs_refl (w : pystr) : occurs w w.
Proof. exists [], []. simpl. rewrite app_nil_r. reflexivity. Qed.

Lemma occurs_trans (a b c : pystr) : occurs a b -> occurs b c -> occurs a c.
Proof.
  intros [p1 [q1 ->]] [p2 [q2 ->]].
  exists (p2 ++ p1), (q1 ++ q2). repeat rewrite <- app_assoc. reflexivity.
Qed.

(** A slice is a contiguous part of the string it is taken from. *)
Lemma slice_occurs (s : pystr) (lo hi : option Z) : occurs (slice s lo hi) s.
Proof.
  unfold slice.
  set (k := Z.to_nat _). set (a := Z.to_nat _).
  exists (firstn a s), (skipn k (skipn a s)).
  rewrite firstn_skipn, firstn_skipn. reflexivity.
Qed.

Lemma window_app {A : Type} (a : nat) (pre w post : list A) :
  (a <= List.length pre)%nat ->
  firstn (List.length pre + List.length w - a) (skipn a (pre ++ w ++ post))
  = skipn a pre ++ w.
Proof.
  intros Ha.
  rewrite skipn_app.
  replace (a - List.length pre)%nat with 0%nat by lia. simpl.
  rewrite firstn_app, length_skipn.
  replace (List.length pre + List.length w - a - (List.length pre - a))%nat
    with (List.length w + 0)%nat by lia.
  rewrite firstn_app_2. simpl. rewrite app_nil_r.
  rewrite firstn_all2; [reflexivity|].
  rewrite length_skipn. lia.
Qed.

(** The slice the forward search compares with a word, at the place
    where the word stands. *)
Lemma slice_at (pre w post : pystr) :
  slice (pre ++ w ++ post) (Some (len pre)) (Some (len pre + len w)) = w.
Proof.
  unfold slice, clip. rewrite !len_app.
  pose proof (len_nonneg pre). pose proof (len_nonneg w).
  pose proof (len_nonneg post).
  destruct (Z.ltb_spec (len pre) 0); [lia|].
  destruct (Z.ltb_spec (len pre + len w) 0); [lia|].
  unfold len in *.
  replace (Z.to_nat (Z.min _ _ - Z.min _ _))
    with (List.length pre + List.length w - List.length pre)%nat by lia.
  replace (Z.to_nat (Z.min _ _)) with (List.length pre) by lia.
  rewrite window_app by lia. rewrite skipn_all. reflexivity.
Qed.

(** The slice the backward search takes on its first step. *)
Lemma slice_tail (pre w : pystr) :
  w <> [] -> slice (pre ++ w) (Some (- len w)) None = w.
Proof.
  intros Hw. unfold slice, clip. rewrite !len_app.
  pose proof (len_nonneg pre).
  assert (0 < len w) by (destruct w; [congruence | rewrite len_cons; pose proof (len_nonneg w); lia]).
  destruct (Z.ltb_spec (- len w) 0); [|lia].
  unfold len in *.
  replace (Z.to_nat (_ - _))
    with (List.length pre + List.length w - List.length pre)%nat by lia.
  replace (Z.to_nat (Z.max _ _)) with (List.length pre) by lia.
  rewrite <- (app_nil_r w) at 2.
  rewrite window_app by lia. rewrite skipn_all. reflexivity.
Qed.

(** The slice the backward search takes on a later step still holds a
    word that ends where the step stands. *)
Lemma slice_back (pre w post : pystr) :
  post <> [] ->
  occurs w (slice (pre ++ w ++ post)
                  (Some (- (len post + len w + 1))) (Some (- len post))).
Proof.
  intros Hp. unfold slice, clip. rewrite !len_app.
  pose proof (len_nonneg pre). pose proof (len_nonneg w).
  assert (0 < len post) by (destruct post; [congruence | rewrite len_cons; pose proof (len_nonneg post); lia]).
  destruct (Z.ltb_spec (- (len post + len w + 1)) 0); [|lia].
  destruct (Z.ltb_spec (- len post) 0); [|lia].
  unfold len in *.
  set (a := (List.length pre - 1)%nat).
  replace (Z.to_nat (Z.max _ _ - Z.max _ _))
    with (List.length pre + List.length w - a)%nat by lia.
  replace (Z.to_nat (Z.max _ _)) with a by lia.
  rewrite window_app by lia.
  exists (skipn a pre), []. rewrite app_nil_r. reflexivity.
Qed.

Lemma getitem_In {A : Type} (s : list A) (i : Z) (c : A) :
  getitem s i = Ok c -> In c s.
Proof.
  unfold getitem. destruct (_ || _); [discriminate|].
  destruct (nth_error _ _) eqn:E; [|discriminate].
  intros H. inversion H. subst. eapply nth_error_In; eauto.
Qed.

Lemma getitem_nth {A : Type} (s : list A) (i j : Z) (c : A) :
  j = (if i <? 0 then i + len s else i) ->
  0 <= j < len s ->
  nth_error s (Z.to_nat j) = Some c ->
  getitem s i = Ok c.
Proof.
  intros Hj Hr Hn. unfold getitem. rewrite <- Hj.
  destruct (Z.ltb_spec j 0); [lia|].
  destruct (Z.leb_spec (len s) j); [lia|].
  simpl. rewrite Hn. reflexivity.
Qed.

Lemma nth_error_middle {A : Type} (pre : list A) (c : A) (post : list A) :
  nth_error (pre ++ c :: post) (List.length pre) = Some c.
Proof. rewrite nth_error_app2 by lia. rewrite Nat.sub_diag. reflexivity. Qed.

(** Index [len(pre)] from the front. *)
Lemma getitem_front {A : Type} (pre : list A) (c : A) (post : list A) :
  getitem (pre ++ c :: post) (len pre) = Ok c.
Proof.
  pose proof (len_nonneg pre). pose proof (len_nonneg post).
  apply getitem_nth with (j := len pre).
  - destruct (Z.ltb_spec (len pre) 0); [lia | reflexivity].
  - rewrite len_app, len_cons. lia.
  - unfold len. rewrite Nat2Z.id. apply nth_error_middle.
Qed.

(** Index [-(len(post)+1)], counted from the back. *)
Lemma getitem_back {A : Type} (pre : list A) (c : A) (post : list A) :
  getitem (pre ++ c :: post) (- (len post + 1)) = Ok c.
Proof.
  pose proof (len_nonneg pre). pose proof (len_nonneg post).
  apply getitem_nth with (j := len pre).
  - rewrite len_app, len_cons.
    destruct (Z.ltb_spec (- (len post + 1)) 0); lia.
  - rewrite len_app, len_cons. lia.
  - unfold len. rewrite Nat2Z.id. apply nth_error_middle.
Qed.

(** Inside its bounds, indexing from either end returns a character. *)
Lemma getitem_total {A : Type} (s : list A) (i : Z) :
  0 <= i < len s ->
  (exists c, getitem s i = Ok c) /\ (exists c, getitem s (- (i + 1)) = Ok c).
Proof.
  intros Hi.
  assert (Hnth : forall j, 0 <= j < len s ->
            exists c, nth_error s (Z.to_nat j) = Some c).
  { intros j Hj. destruct (nth_error s (Z.to_nat j)) eqn:E; [eauto|].
    apply nth_error_None in E. unfold len in *. lia. }
  split.
  - destruct (Hnth i Hi) as [c Hc]. exists c.
    apply getitem_nth with (j := i); auto.
    destruct (Z.ltb_spec i 0); [lia | reflexivity].
  - assert (Hj : 0 <= len s - 1 - i < len s) by lia.
    destruct (Hnth _ Hj) as [c Hc]. exists c.
    apply getitem_nth with (j := len s - 1 - i); auto.
    destruct (Z.ltb_spec (- (i + 1)) 0); lia.
Qed.

Lemma in_range (n i : Z) : In i (range n) <-> 0 <= i < n.
Proof.
  unfold range. rewrite in_map_iff. split.
  - intros [k [<- Hk]]. apply in_seq in Hk. lia.
  - intros Hi. exists (Z.to_nat i). split; [lia|]. apply in_seq. lia.
Qed.

Lemma Ok_inj {A : Type} (a b : A) : Ok a = Ok b -> a = b.
Proof. intros H. injection H as H. exact H. Qed.

Lemma split_nonempty (sep : ascii) (s : pystr) :
  exists p ps, split sep s = p :: ps.
Proof.
  destruct s as [|c s]; simpl; [eauto|].
  destruct (Ascii.eqb c sep); [eauto|].
  destruct (split sep s); eauto.
Qed.

Lemma split_no_sep (sep : ascii) (s : pystr) :
  ~ In sep s -> split sep s = [s].
Proof.
  induction s as [|c s IH]; intros H; simpl; [reflexivity|].
  destruct (Ascii.eqb_spec c sep) as [-> | _].
  - exfalso. apply H. left. reflexivity.
  - rewrite IH; [reflexivity|]. intros Hin. apply H. right. exact Hin.
Qed.

Lemma split_app (sep : ascii) (a b : pystr) :
  ~ In sep a -> split sep (a ++ sep :: b) = a :: split sep b.
Proof.
  induction a as [|c a IH]; intros H; simpl.
  - rewrite Ascii.eqb_refl. reflexivity.
  - destruct (Ascii.eqb_spec c sep) as [-> | _].
    + exfalso. apply H. left. reflexivity.
    + rewrite IH; [reflexivity|]. intros Hin. apply H. right. exact Hin.
Qed.

Lemma after_first_app (sep : ascii) (a b : pystr) :
  ~ In sep a -> after_first sep (a ++ sep :: b) = Some b.
Proof.
  induction a as [|c a IH]; intros H; simpl.
  - rewrite Ascii.eqb_refl. reflexivity.
  - destruct (Ascii.eqb_spec c sep) as [-> | _].
    + exfalso. apply H. left. reflexivity.
    + apply IH. intros Hin. apply H. right. exact Hin.
Qed.

Lemma getitem_first {A : Type} (x : A) (l : list A) :
  getitem (x :: l) 0 = Ok x.
Proof. exact (getitem_front [] x l). Qed.

Lemma getitem_second {A : Type} (x y : A) (l : list A) :
  getitem (x :: y :: l) 1 = Ok y.
Proof.
  apply getitem_nth with (j := 1); [reflexivity | | reflexivity].
  rewrite !len_cons. pose proof (len_nonneg l). lia.
Qed.

Lemma int_digits_raise (s : pystr) (acc : Z) (after : bool) (e : exn) :
  int_digits acc after s = Raise e -> e = ValueError.
Proof.
  revert acc after. induction s as [|c s IH]; intros acc after; simpl.
  - destruct after; [discriminate | congruence].
  - destruct (isdigit c); [apply IH|].
    destruct (_ && _); [apply IH | congruence].
Qed.

Lemma int_raise (s : pystr) (e : exn) : int s = Raise e -> e = ValueError.
Proof.
  unfold int. cbv zeta.
  destruct (max_str_digits <? _); [congruence|].
  destruct (strip_by int_space s) as [|c r].
  - simpl. congruence.
  - assert (G : forall t, int_digits 0 false t = Raise e -> e = ValueError)
      by (intros t; apply int_digits_raise).
    assert (N : forall t, bind (int_digits 0 false t) (fun v => Ok (- v))
                          = Raise e -> e = ValueError).
    { intros t. destruct (int_digits 0 false t) eqn:E; simpl;
        [discriminate|]. intros H. injection H as <-.
      eapply int_digits_raise. exact E. }
    destruct c as [[] [] [] [] [] [] [] []]; cbv beta iota;
      first [apply G | apply N].
Qed.

End PyFacts.

(* ================================================================== *)
(** ** The calibration decoder *)
(* ================================================================== *)

Section DecoderFacts.

Lemma numbers_isdigit (c : ascii) : list_contains [c] numbers = isdigit c.
Proof.
  destruct c as [[] [] [] [] [] [] [] []]; vm_compute; reflexivity.
Qed.

Lemma int_digit (c : ascii) : isdigit c = true -> int [c] = Ok (digit_value c).
Proof.
  destruct c as [[] [] [] [] [] [] [] []]; vm_compute; intros H;
    first [discriminate H | reflexivity].
Qed.

Lemma digit_value_range (c : ascii) :
  isdigit c = true -> 0 <= digit_value c <= 9.
Proof.
  unfold isdigit, digit_value. rewrite andb_true_iff.
  intros [H1 H2]. apply Z.leb_le in H1, H2. lia.
Qed.

Lemma digit_value_zero (c : ascii) : digit_value c = 0 -> c = "0"%char.
Proof.
  unfold digit_value, ord. intros H.
  rewrite <- (ascii_N_embedding c).
  replace (N_of_ascii c) with 48%N by lia. reflexivity.
Qed.

(** [int(f"{f}{l}")] of two decimal digits. *)
Lemma int_concat (f l : Z) :
  0 <= f <= 9 -> 0 <= l <= 9 -> int (repr_int f ++ repr_int l) = Ok (10 * f + l).
Proof.
  intros Hf Hl.
  assert (Ef : f = 0 \/ f = 1 \/ f = 2 \/ f = 3 \/ f = 4 \/ f = 5 \/ f = 6
               \/ f = 7 \/ f = 8 \/ f = 9) by lia.
  assert (El : l = 0 \/ l = 1 \/ l = 2 \/ l = 3 \/ l = 4 \/ l = 5 \/ l = 6
               \/ l = 7 \/ l = 8 \/ l = 9) by lia.
  repeat (destruct Ef as [-> | Ef]); try subst f;
    repeat (destruct El as [-> | El]); try subst l; reflexivity.
Qed.

Lemma enumerate_words :
  enumerate word_numbers =
  [(0, str "one"); (1, str "two"); (2, str "three"); (3, str "four");
   (4, str "five"); (5, str "six"); (6, str "seven"); (7, str "eight");
   (8, str "nine")].
Proof. reflexivity. Qed.

Lemma enumerate_words_In (k : Z) (w : pystr) :
  In (k, w) (enumerate word_numbers) ->
  0 <= k <= 8 /\ In w word_numbers /\ w <> [].
Proof.
  rewrite enumerate_words. unfold word_numbers. simpl.
  intros H.
  repeat (destruct H as [H | H];
          [inversion H; subst; split; [lia | split; [tauto | discriminate]] |]).
  contradiction.
Qed.

Lemma words_enumerated (w : pystr) :
  In w word_numbers -> exists k, In (k, w) (enumerate word_numbers).
Proof.
  rewrite enumerate_words. unfold word_numbers. simpl. intros H.
  repeat (destruct H as [<- | H]; [eexists; simpl; eauto 12 |]).
  contradiction.
Qed.

Lemma word_nonempty (w : pystr) : In w word_numbers -> w <> [].
Proof.
  intros H. destruct (words_enumerated w H) as [k Hk].
  apply (enumerate_words_In k w Hk).
Qed.

(** *** One step of the scan *)

Lemma scan_body_eq (line : pystr) (wc : bool) (i : Z) (st : cursors)
    (lc rc : ascii) :
  getitem line i = Ok lc ->
  getitem line (- (i + 1)) = Ok rc ->
  scan_body line wc i st =
  Ok (if wc
      then word_loop line i (enumerate word_numbers) (digit_step st lc rc)
      else digit_step st lc rc).
Proof.
  intros Hl Hr. unfold scan_body, digit_step. rewrite Hl, Hr.
  cbn [bind]. rewrite numbers_isdigit.
  destruct (is_none (first_num st) && isdigit lc) eqn:E1.
  - apply andb_true_iff in E1. destruct E1 as [_ E1].
    rewrite (int_digit lc E1). cbn [bind]. rewrite numbers_isdigit.
    destruct (is_none _ && isdigit rc) eqn:E2; [|reflexivity].
    apply andb_true_iff in E2. destruct E2 as [_ E2].
    rewrite (int_digit rc E2). reflexivity.
  - cbn [bind]. rewrite numbers_isdigit.
    destruct (is_none _ && isdigit rc) eqn:E2; [|reflexivity].
    apply andb_true_iff in E2. destruct E2 as [_ E2].
    rewrite (int_digit rc E2). reflexivity.
Qed.

Lemma scan_body_inv (line : pystr) (wc : bool) (i : Z) (st st' : cursors) :
  scan_body line wc i st = Ok st' ->
  exists lc rc,
    getitem line i = Ok lc /\ getitem line (- (i + 1)) = Ok rc /\
    st' = (if wc
           then word_loop line i (enumerate word_numbers) (digit_step st lc rc)
           else digit_step st lc rc).
Proof.
  intros H.
  destruct (getitem line i) as [lc|e] eqn:Hl;
    [|unfold scan_body in H; rewrite Hl in H; discriminate].
  destruct (getitem line (- (i + 1))) as [rc|e] eqn:Hr;
    [|unfold scan_body in H; rewrite Hl, Hr in H; discriminate].
  rewrite (scan_body_eq line wc i st lc rc Hl Hr) in H.
  exists lc, rc. split; [reflexivity|]. split; [reflexivity|].
  symmetry. apply Ok_inj. exact H.
Qed.

Lemma both_found_first (st : cursors) :
  first_num st = None -> both_found st = false.
Proof. unfold both_found. intros ->. reflexivity. Qed.

Lemma both_found_last (st : cursors) :
  last_num st = None -> both_found st = false.
Proof. unfold both_found. intros ->. apply andb_false_r. Qed.

Lemma digit_step_first (st : cursors) (lc rc : ascii) :
  first_num (digit_step st lc rc) =
  match first_num st with
  | Some a => Some a
  | None => if isdigit lc then Some (digit_value lc) else None
  end.
Proof.
  unfold digit_step.
  destruct (first_num st) eqn:F, (isdigit lc), (last_num st) eqn:L,
    (isdigit rc); cbn; rewrite ?F, ?L; cbn; rewrite ?F; reflexivity.
Qed.

Lemma digit_step_last (st : cursors) (lc rc : ascii) :
  last_num (digit_step st lc rc) =
  match last_num st with
  | Some a => Some a
  | None => if isdigit rc then Some (digit_value rc) else None
  end.
Proof.
  unfold digit_step.
  destruct (first_num st) eqn:F, (isdigit lc), (last_num st) eqn:L,
    (isdigit rc); cbn; rewrite ?F, ?L; cbn; rewrite ?L; reflexivity.
Qed.

Lemma word_body_first (line : pystr) (i : Z) (st : cursors) (k : Z)
    (w : pystr) :
  first_num (word_body line i st k w) =
  match first_num st with
  | Some a => Some a
  | None => if contains w (left_word line i w) then Some (k + 1) else None
  end.
Proof.
  unfold word_body.
  destruct (first_num st) eqn:F, (contains w (left_word line i w)),
    (last_num st) eqn:L, (contains w (right_word line i w));
    cbn; rewrite ?F, ?L; cbn; rewrite ?F; reflexivity.
Qed.

Lemma word_body_last (line : pystr) (i : Z) (st : cursors) (k : Z)
    (w : pystr) :
  last_num (word_body line i st k w) =
  match last_num st with
  | Some a => Some a
  | None => if contains w (right_word line i w) then Some (k + 1) else None
  end.
Proof.
  unfold word_body.
  destruct (first_num st) eqn:F, (contains w (left_word line i w)),
    (last_num st) eqn:L, (contains w (right_word line i w));
    cbn; rewrite ?F, ?L; cbn; rewrite ?L; reflexivity.
Qed.

Lemma cursors_eq (a b : cursors) :
  first_num a = first_num b -> last_num a = last_num b -> a = b.
Proof. destruct a, b. simpl. congruence. Qed.

(** *** The loop over the words *)

Lemma word_loop_first_none (line : pystr) (i : Z) (ws : list (Z * pystr))
    (st : cursors) :
  first_num (word_loop line i ws st) = None ->
  first_num st = None /\
  forall k w, In (k, w) ws -> contains w (left_word line i w) = false.
Proof.
  revert st. induction ws as [|[k w] ws IH]; intros st H; simpl in H.
  - split; [exact H | intros k w []].
  - destruct (both_found (word_body line i st k w)) eqn:B.
    + rewrite (both_found_first _ H) in B. discriminate.
    + apply IH in H. destruct H as [H1 H2].
      rewrite word_body_first in H1.
      destruct (first_num st); [discriminate|].
      destruct (contains w (left_word line i w)) eqn:C; [discriminate|].
      split; [reflexivity|].
      intros k' w' [E | Hin]; [inversion E; subst; exact C | eauto].
Qed.

Lemma word_loop_last_none (line : pystr) (i : Z) (ws : list (Z * pystr))
    (st : cursors) :
  last_num (word_loop line i ws st) = None ->
  last_num st = None /\
  forall k w, In (k, w) ws -> contains w (right_word line i w) = false.
Proof.
  revert st. induction ws as [|[k w] ws IH]; intros st H; simpl in H.
  - split; [exact H | intros k w []].
  - destruct (both_found (word_body line i st k w)) eqn:B.
    + rewrite (both_found_last _ H) in B. discriminate.
    + apply IH in H. destruct H as [H1 H2].
      rewrite word_body_last in H1.
      destruct (last_num st); [discriminate|].
      destruct (contains w (right_word line i w)) eqn:C; [discriminate|].
      split; [reflexivity|].
      intros k' w' [E | Hin]; [inversion E; subst; exact C | eauto].
Qed.

Lemma word_loop_silent (line : pystr) (i : Z) (ws : list (Z * pystr))
    (st : cursors) :
  (forall k w, In (k, w) ws ->
     contains w (left_word line i w) = false /\
     contains w (right_word line i w) = false) ->
  word_loop line i ws st = st.
Proof.
  revert st. induction ws as [|[k w] ws IH]; intros st H; simpl.
  - reflexivity.
  - assert (E : word_body line i st k w = st).
    { destruct (H k w (or_introl eq_refl)) as [Hl Hr].
      apply cursors_eq.
      - rewrite word_body_first, Hl. destruct (first_num st); reflexivity.
      - rewrite word_body_last, Hr. destruct (last_num st); reflexivity. }
    rewrite E. destruct (both_found st); [reflexivity|].
    apply IH. intros k' w' Hin. apply (H k' w'). right. exact Hin.
Qed.

Lemma word_loop_valid (line : pystr) (i : Z) (ws : list (Z * pystr))
    (st : cursors) :
  (forall k w, In (k, w) ws -> 0 <= k <= 8) ->
  valid line st -> valid line (word_loop line i ws st).
Proof.
  revert st. induction ws as [|[k w] ws IH]; intros st Hk Hv; simpl.
  - exact Hv.
  - assert (Hv' : valid line (word_body line i st k w)).
    { pose proof (Hk k w (or_introl eq_refl)) as Hk0.
      destruct Hv as [Hf Hl]. split; intros a Ha.
      - rewrite word_body_first in Ha.
        destruct (first_num st) eqn:F; [apply Hf; exact Ha|].
        destruct (contains w (left_word line i w)); [|discriminate].
        inversion Ha. lia.
      - rewrite word_body_last in Ha.
        destruct (last_num st) eqn:L; [apply Hl; exact Ha|].
        destruct (contains w (right_word line i w)); [|discriminate].
        inversion Ha. lia. }
    destruct (both_found _); [exact Hv'|].
    apply IH; [|exact Hv']. intros k' w' Hin. apply (Hk k' w'). right.
    exact Hin.
Qed.

Lemma digit_step_valid (line : pystr) (st : cursors) (lc rc : ascii) :
  In lc line -> In rc line -> valid line st ->
  valid line (digit_step st lc rc).
Proof.
  intros Hlc Hrc [Hf Hl]. split; intros a Ha.
  - rewrite digit_step_first in Ha.
    destruct (first_num st) eqn:F; [apply Hf; exact Ha|].
    destruct (isdigit lc) eqn:D; [|discriminate]. inversion Ha.
    split; [apply digit_value_range; exact D|].
    intros Z0. rewrite <- (digit_value_zero lc Z0). exact Hlc.
  - rewrite digit_step_last in Ha.
    destruct (last_num st) eqn:L; [apply Hl; exact Ha|].
    destruct (isdigit rc) eqn:D; [|discriminate]. inversion Ha.
    split; [apply digit_value_range; exact D|].
    intros Z0. rewrite <- (digit_value_zero rc Z0). exact Hrc.
Qed.

(** *** The loop over the positions *)

Lemma step_first_none (line : pystr) (wc : bool) (i : Z) (st : cursors)
    (lc rc : ascii) :
  first_num (if wc
             then word_loop line i (enumerate word_numbers)
                            (digit_step st lc rc)
             else digit_step st lc rc) = None ->
  first_num st = None /\ isdigit lc = false /\
  (wc = true -> forall w, In w word_numbers ->
     contains w (left_word line i w) = false).
Proof.
  intros H. destruct wc.
  - apply word_loop_first_none in H. destruct H as [H1 H2].
    rewrite digit_step_first in H1.
    destruct (first_num st); [discriminate|].
    destruct (isdigit lc); [discriminate|].
    repeat split. intros _ w Hw.
    destruct (words_enumerated w Hw) as [k Hk]. eapply H2. exact Hk.
  - rewrite digit_step_first in H.
    destruct (first_num st); [discriminate|].
    destruct (isdigit lc); [discriminate|].
    repeat split. discriminate.
Qed.

Lemma step_last_none (line : pystr) (wc : bool) (i : Z) (st : cursors)
    (lc rc : ascii) :
  last_num (if wc
            then word_loop line i (enumerate word_numbers)
                           (digit_step st lc rc)
            else digit_step st lc rc) = None ->
  last_num st = None /\ isdigit rc = false /\
  (wc = true -> forall w, In w word_numbers ->
     contains w (right_word line i w) = false).
Proof.
  intros H. destruct wc.
  - apply word_loop_last_none in H. destruct H as [H1 H2].
    rewrite digit_step_last in H1.
    destruct (last_num st); [discriminate|].
    destruct (isdigit rc); [discriminate|].
    repeat split. intros _ w Hw.
    destruct (words_enumerated w Hw) as [k Hk]. eapply H2. exact Hk.
  - rewrite digit_step_last in H.
    destruct (last_num st); [discriminate|].
    destruct (isdigit rc); [discriminate|].
    repeat split. discriminate.
Qed.

Lemma scan_loop_total (line : pystr) (wc : bool) (idxs : list Z)
    (st : cursors) :
  (forall i, In i idxs -> 0 <= i < len line) ->
  exists st', scan_loop line wc idxs st = Ok st'.
Proof.
  revert st. induction idxs as [|i idxs IH]; intros st H; cbn [scan_loop].
  - eauto.
  - destruct (getitem_total line i (H i (or_introl eq_refl)))
      as [[lc Hl] [rc Hr]].
    rewrite (scan_body_eq line wc i st lc rc Hl Hr). cbn [bind].
    destruct (both_found _); [eauto|].
    apply IH. intros j Hj. apply H. right. exact Hj.
Qed.

Lemma scan_loop_valid (line : pystr) (wc : bool) (idxs : list Z)
    (st st' : cursors) :
  valid line st -> scan_loop line wc idxs st = Ok st' -> valid line st'.
Proof.
  revert st. induction idxs as [|i idxs IH]; intros st Hv H;
    cbn [scan_loop] in H.
  - injection H as <-. exact Hv.
  - destruct (scan_body line wc i st) as [st1|e] eqn:B; cbn [bind] in H;
      [|discriminate].
    apply scan_body_inv in B. destruct B as (lc & rc & Hl & Hr & E).
    assert (Hv1 : valid line st1).
    { assert (Hd : valid line (digit_step st lc rc)).
      { apply digit_step_valid; [eapply getitem_In | eapply getitem_In |];
          eauto. }
      subst st1. destruct wc; [|exact Hd].
      apply word_loop_valid; [|exact Hd].
      intros k w Hin. apply (enumerate_words_In k w Hin). }
    destruct (both_found st1); [injection H as <-; exact Hv1|].
    eapply IH; eauto.
Qed.

Lemma scan_loop_first_none (line : pystr) (wc : bool) (idxs : list Z)
    (st st' : cursors) :
  scan_loop line wc idxs st = Ok st' -> first_num st' = None ->
  first_num st = None /\ forall i, In i idxs -> left_silent line wc i.
Proof.
  revert st. induction idxs as [|i idxs IH]; intros st H Hn;
    cbn [scan_loop] in H.
  - injection H as <-. split; [exact Hn | intros i []].
  - destruct (scan_body line wc i st) as [st1|e] eqn:B; cbn [bind] in H;
      [|discriminate].
    apply scan_body_inv in B. destruct B as (lc & rc & Hl & Hr & E).
    destruct (both_found st1) eqn:BF.
    + injection H as <-. rewrite (both_found_first _ Hn) in BF. discriminate.
    + destruct (IH _ H Hn) as [H1 H2]. rewrite E in H1.
      apply step_first_none in H1. destruct H1 as (F & D & W).
      split; [exact F|]. intros j [<- | Hj]; [|auto].
      split; [|exact W]. intros c Hc. congruence.
Qed.

Lemma scan_loop_last_none (line : pystr) (wc : bool) (idxs : list Z)
    (st st' : cursors) :
  scan_loop line wc idxs st = Ok st' -> last_num st' = None ->
  last_num st = None /\ forall i, In i idxs -> right_silent line wc i.
Proof.
  revert st. induction idxs as [|i idxs IH]; intros st H Hn;
    cbn [scan_loop] in H.
  - injection H as <-. split; [exact Hn | intros i []].
  - destruct (scan_body line wc i st) as [st1|e] eqn:B; cbn [bind] in H;
      [|discriminate].
    apply scan_body_inv in B. destruct B as (lc & rc & Hl & Hr & E).
    destruct (both_found st1) eqn:BF.
    + injection H as <-. rewrite (both_found_last _ Hn) in BF. discriminate.
    + destruct (IH _ H Hn) as [H1 H2]. rewrite E in H1.
      apply step_last_none in H1. destruct H1 as (F & D & W).
      split; [exact F|]. intros j [<- | Hj]; [|auto].
      split; [|exact W]. intros c Hc. congruence.
Qed.

Lemma scan_loop_silent (line : pystr) (wc : bool) (idxs : list Z)
    (st : cursors) :
  (forall i, In i idxs ->
     0 <= i < len line /\ left_silent line wc i /\ right_silent line wc i) ->
  scan_loop line wc idxs st = Ok st.
Proof.
  revert st. induction idxs as [|i idxs IH]; intros st H; cbn [scan_loop].
  - reflexivity.
  - destruct (H i (or_introl eq_refl)) as (Hi & [Ld Lw] & [Rd Rw]).
    destruct (getitem_total line i Hi) as [[lc Hl] [rc Hr]].
    rewrite (scan_body_eq line wc i st lc rc Hl Hr). cbn [bind].
    assert (E : digit_step st lc rc = st).
    { apply cursors_eq.
      - rewrite digit_step_first, (Ld lc Hl). destruct (first_num st); auto.
      - rewrite digit_step_last, (Rd rc Hr). destruct (last_num st); auto. }
    rewrite E.
    assert (E' : (if wc then word_loop line i (enumerate word_numbers) st
                  else st) = st).
    { destruct wc; [|reflexivity]. apply word_loop_silent.
      intros k w Hin. apply enumerate_words_In in Hin.
      destruct Hin as (_ & Hw & _). split; auto. }
    rewrite E'. destruct (both_found st); [reflexivity|].
    apply IH. intros j Hj. apply H. right. exact Hj.
Qed.

(** *** Silent steps and the contents of the line *)

Lemma silent_of_line (line : pystr) (wc : bool) (i : Z) :
  ~ has_digit line -> (wc = true -> ~ has_word line) ->
  left_silent line wc i /\ right_silent line wc i.
Proof.
  intros Hd Hw.
  assert (D : forall j c, getitem line j = Ok c -> isdigit c = false).
  { intros j c Hc. destruct (isdigit c) eqn:E; [|reflexivity].
    exfalso. apply Hd. exists c. split; [eapply getitem_In; eauto | exact E]. }
  assert (W : wc = true -> forall w lo hi, In w word_numbers ->
                contains w (slice line lo hi) = false).
  { intros Hwc w lo hi Hin. apply contains_not_occurs. intros Ho.
    apply (Hw Hwc). exists w. split; [exact Hin|].
    eapply occurs_trans; [exact Ho | apply slice_occurs]. }
  split; split.
  - apply D.
  - intros Hwc w Hin. unfold left_word. apply W; assumption.
  - apply D.
  - intros Hwc w Hin. unfold right_word.
    destruct (i =? 0); apply W; assumption.
Qed.

Lemma line_of_left_silent (line : pystr) (wc : bool) :
  (forall i, 0 <= i < len line -> left_silent line wc i) ->
  ~ has_digit line /\ (wc = true -> ~ has_word line).
Proof.
  intros H. split.
  - intros (c & Hin & Hc). apply in_split in Hin.
    destruct Hin as (pre & post & ->).
    assert (Hi : 0 <= len pre < len (pre ++ c :: post)).
    { rewrite len_app, len_cons. pose proof (len_nonneg pre).
      pose proof (len_nonneg post). lia. }
    destruct (H _ Hi) as [Hd _].
    rewrite (Hd c (getitem_front pre c post)) in Hc. discriminate.
  - intros Hwc (w & Hin & pre & post & ->).
    pose proof (word_nonempty w Hin) as Hne.
    assert (Hi : 0 <= len pre < len (pre ++ w ++ post)).
    { rewrite !len_app. pose proof (len_nonneg pre).
      pose proof (len_nonneg post). destruct w; [congruence|].
      rewrite len_cons. pose proof (len_nonneg w). lia. }
    destruct (H _ Hi) as [_ Hw]. specialize (Hw Hwc w Hin).
    unfold left_word in Hw. rewrite slice_at in Hw.
    assert (T : contains w w = true) by (apply contains_occurs, occurs_refl).
    congruence.
Qed.

Lemma line_of_right_silent (line : pystr) (wc : bool) :
  (forall i, 0 <= i < len line -> right_silent line wc i) ->
  ~ has_digit line /\ (wc = true -> ~ has_word line).
Proof.
  intros H. split.
  - intros (c & Hin & Hc). apply in_split in Hin.
    destruct Hin as (pre & post & ->).
    assert (Hi : 0 <= len post < len (pre ++ c :: post)).
    { rewrite len_app, len_cons. pose proof (len_nonneg pre).
      pose proof (len_nonneg post). lia. }
    destruct (H _ Hi) as [Hd _].
    rewrite (Hd c (getitem_back pre c post)) in Hc. discriminate.
  - intros Hwc (w & Hin & pre & post & ->).
    pose proof (word_nonempty w Hin) as Hne.
    assert (Hi : 0 <= len post < len (pre ++ w ++ post)).
    { rewrite !len_app. pose proof (len_nonneg pre).
      pose proof (len_nonneg post). destruct w; [congruence|].
      rewrite len_cons. pose proof (len_nonneg w). lia. }
    destruct (H _ Hi) as [_ Hw]. specialize (Hw Hwc w Hin).
    assert (T : contains w (right_word (pre ++ w ++ post) (len post) w) = true).
    { apply contains_occurs. unfold right_word.
      destruct post as [|x post].
      - simpl. rewrite app_nil_r. rewrite slice_tail by exact Hne.
        apply occurs_refl.
      - destruct (Z.eqb_spec (len (x :: post)) 0) as [E|_].
        + rewrite len_cons in E. pose proof (len_nonneg post). lia.
        + apply slice_back. discriminate. }
    congruence.
Qed.

(** *** The scan as a whole *)

Lemma valid_init (line : pystr) : valid line (Cursors None None).
Proof. split; intros a Ha; discriminate. Qed.

Lemma scan_total (line : pystr) (wc : bool) :
  exists st, scan line wc = Ok st /\ valid line st.
Proof.
  destruct (scan_loop_total line wc (range (len line)) (Cursors None None))
    as [st Hst].
  - intros i Hi. apply in_range. exact Hi.
  - exists st. split; [exact Hst|].
    eapply scan_loop_valid; [apply valid_init | exact Hst].
Qed.

Lemma scan_silent (line : pystr) (wc : bool) :
  ~ has_digit line -> (wc = true -> ~ has_word line) ->
  scan line wc = Ok (Cursors None None).
Proof.
  intros Hd Hw. apply scan_loop_silent. intros i Hi.
  split; [apply in_range; exact Hi | apply silent_of_line; assumption].
Qed.

Lemma scan_first_none (line : pystr) (wc : bool) (st : cursors) :
  scan line wc = Ok st -> first_num st = None ->
  ~ has_digit line /\ (wc = true -> ~ has_word line).
Proof.
  intros H Hn. apply line_of_left_silent. intros i Hi.
  eapply scan_loop_first_none; eauto. apply in_range. exact Hi.
Qed.

Lemma scan_last_none (line : pystr) (wc : bool) (st : cursors) :
  scan line wc = Ok st -> last_num st = None ->
  ~ has_digit line /\ (wc = true -> ~ has_word line).
Proof.
  intros H Hn. apply line_of_right_silent. intros i Hi.
  eapply scan_loop_last_none; eauto. apply in_range. exact Hi.
Qed.

(** Both searches end empty-handed together, or not at all. *)
Lemma scan_sides (line : pystr) (wc : bool) (st : cursors) :
  scan line wc = Ok st -> (first_num st = None <-> last_num st = None).
Proof.
  intros H. split; intros Hn.
  - destruct (scan_first_none line wc st H Hn) as [Hd Hw].
    rewrite (scan_silent line wc Hd Hw) in H. injection H as <-. reflexivity.
  - destruct (scan_last_none line wc st H Hn) as [Hd Hw].
    rewrite (scan_silent line wc Hd Hw) in H. injection H as <-. reflexivity.
Qed.

(** *** From the scan to the decoded value *)

Lemma decode_line_of_scan (line : pystr) (wc : bool) :
  (scan line wc = Ok (Cursors None None) /\ decode_line line wc = Ok None) \/
  (exists f l, scan line wc = Ok (Cursors (Some f) (Some l)) /\
     digit_of line (Some f) /\ digit_of line (Some l) /\
     decode_line line wc = Ok (Some (10 * f + l))).
Proof.
  destruct (scan_total line wc) as (st & Hs & Hv).
  pose proof (scan_sides line wc st Hs) as Hb.
  unfold decode_line. rewrite Hs. cbn [bind].
  destruct st as [[f|] [l|]]; cbn [first_num last_num] in *.
  - right. exists f, l. destruct Hv as [Hf Hl].
    cbn [first_num last_num] in *.
    split; [reflexivity|]. split; [exact Hf|]. split; [exact Hl|].
    rewrite int_concat; [reflexivity | apply Hf | apply Hl]; reflexivity.
  - destruct Hb as [_ Hb]. discriminate (Hb eq_refl).
  - destruct Hb as [Hb _]. discriminate (Hb eq_refl).
  - left. split; reflexivity.
Qed.

Lemma decode_line_total (line : pystr) (wc : bool) :
  exists r, decode_line line wc = Ok r.
Proof.
  destruct (decode_line_of_scan line wc) as [[_ H] | (f & l & _ & _ & _ & H)];
    eauto.
Qed.

Lemma range_len_cons {A : Type} (x : A) (s : list A) :
  exists tl, range (len (x :: s)) = 0 :: tl.
Proof.
  unfold range, len. rewrite Nat2Z.id. simpl. eexists. reflexivity.
Qed.

(** *** The aggregation *)

Lemma sum_loop_values (lines : list pystr) (wc : bool) (total : Z)
    (out : list pystr) :
  Forall (fun line => exists v, decode_line (strip line) wc = Ok (Some v))
         lines ->
  snd (sum_loop lines wc total out) = Ok (total + sum_lines_spec lines wc).
Proof.
  revert total out. induction lines as [|line lines IH]; intros total out H.
  - simpl. f_equal. lia.
  - inversion H as [|? ? [v Hv] Ht]. subst.
    cbn [sum_loop sum_lines_spec fold_right]. unfold decoded_or_zero at 1.
    rewrite Hv. cbn [iadd]. rewrite IH by exact Ht.
    f_equal. unfold sum_lines_spec. lia.
Qed.

Lemma sum_loop_none (lines : list pystr) (wc : bool) (total : Z)
    (out : list pystr) :
  Exists (fun line => decode_line (strip line) wc = Ok None) lines ->
  snd (sum_loop lines wc total out) = Raise TypeError.
Proof.
  revert total out. induction lines as [|line lines IH]; intros total out H.
  - inversion H.
  - cbn [sum_loop].
    destruct (decode_line_total (strip line) wc) as [[v|] Hr]; rewrite Hr.
    + cbn [iadd]. apply IH. inversion H as [? ? Hh | ? ? Ht]; subst.
      * congruence.
      * exact Ht.
    + reflexivity.
Qed.

End DecoderFacts.

(* ================================================================== *)
(** ** Claims about the calibration decoder *)
(* ================================================================== *)

(** C1. On a non-empty string made of ASCII digits only,
    [decode_line(s, False)] returns ten times the first digit plus the
    last digit. *)
Theorem decode_line_digits_only (c : ascii) (rest : pystr)
    (Hdigits : Forall (fun x => isdigit x = true) (c :: rest)) :
  decode_line (c :: rest) false =
  Ok (Some (10 * digit_value c + digit_value (last (c :: rest) c))).
Proof.
  set (line := c :: rest). set (x := last line c).
  assert (Hc : isdigit c = true) by (inversion Hdigits; assumption).
  assert (Hline : line = removelast line ++ [x])
    by (apply app_removelast_last; discriminate).
  assert (Hx : isdigit x = true).
  { rewrite Forall_forall in Hdigits. apply Hdigits.
    fold line. rewrite Hline. apply in_or_app. right. left. reflexivity. }
  assert (Hl : getitem line 0 = Ok c) by apply (getitem_front [] c rest).
  assert (Hr : getitem line (- (0 + 1)) = Ok x).
  { rewrite Hline. apply (getitem_back (removelast line) x []). }
  assert (Hs : scan line false =
               Ok (Cursors (Some (digit_value c)) (Some (digit_value x)))).
  { assert (Hrange : exists tl, range (len line) = 0 :: tl)
      by apply range_len_cons.
    unfold scan. destruct Hrange as [tl ->].
    cbn [scan_loop]. rewrite (scan_body_eq line false 0 _ c x Hl Hr).
    cbn [bind]. unfold digit_step. cbn [first_num last_num is_none andb].
    rewrite Hc. cbn [first_num last_num is_none andb]. rewrite Hx.
    reflexivity. }
  unfold decode_line. rewrite Hs. cbn [bind first_num last_num].
  rewrite int_concat by (apply digit_value_range; assumption).
  reflexivity.
Qed.

Lemma decode_line_digits_only_witness :
  decode_line (str "2023") false = Ok (Some 23).
Proof.
  apply (decode_line_digits_only "2"%char (str "023")).
  repeat constructor.
Defined.

(** C7. A line with no ASCII digit and, when word correction is on, no
    spelled-out digit decodes to [None] without raising; so does the
    empty line. *)
Theorem decode_line_none (line : pystr) (wc : bool)
    (Hdigit : ~ has_digit line)
    (Hword : wc = true -> ~ has_word line) :
  decode_line line wc = Ok None /\ decode_line (str "") false = Ok None.
Proof.
  split; [|reflexivity].
  unfold decode_line. rewrite (scan_silent line wc Hdigit Hword).
  reflexivity.
Qed.

Lemma decode_line_none_witness :
  decode_line (str "trebuchet") true = Ok None /\
  decode_line (str "") false = Ok None.
Proof.
  apply (decode_line_none (str "trebuchet") true).
  - intros (c & Hin & Hc). simpl in Hin.
    repeat (destruct Hin as [<- | Hin]; [discriminate Hc|]). exact Hin.
  - intros _ (w & Hin & Ho). apply contains_occurs in Ho.
    unfold word_numbers in Hin. simpl in Hin.
    repeat (destruct Hin as [<- | Hin]; [vm_compute in Ho; discriminate Ho|]).
    exact Hin.
Defined.

(** C9, as the code has it. A decoded value is [10 * first + last] for
    two decimal digits, so it lies between 0 and 99; it lies between 11
    and 99 when the line holds no character 0. *)
Theorem decode_line_range (line : pystr) (wc : bool) (v : Z)
    (Hv : decode_line line wc = Ok (Some v)) :
  0 <= v <= 99 /\
  (~ In "0"%char line -> 11 <= v <= 99) /\
  exists f l, scan line wc = Ok (Cursors (Some f) (Some l)) /\
    0 <= f <= 9 /\ 0 <= l <= 9 /\ v = 10 * f + l.
Proof.
  destruct (decode_line_of_scan line wc)
    as [[_ H] | (f & l & Hs & Hf & Hl & H)]; [congruence|].
  assert (E : v = 10 * f + l) by congruence. subst v.
  destruct (Hf f eq_refl) as [Rf Zf]. destruct (Hl l eq_refl) as [Rl Zl].
  split; [lia|]. split.
  - intros Hno.
    assert (f <> 0) by (intros E; apply Hno, Zf, E).
    assert (l <> 0) by (intros E; apply Hno, Zl, E).
    lia.
  - exists f, l. repeat split; auto; lia.
Qed.

Lemma decode_line_range_witness :
  0 <= 38 <= 99 /\
  (~ In "0"%char (str "pqr3stu8vwx") -> 11 <= 38 <= 99) /\
  exists f l, scan (str "pqr3stu8vwx") false = Ok (Cursors (Some f) (Some l)) /\
    0 <= f <= 9 /\ 0 <= l <= 9 /\ 38 = 10 * f + l.
Proof.
  apply (decode_line_range (str "pqr3stu8vwx") false 38).
  vm_compute. reflexivity.
Defined.

(** C9, as stated, fails: the line "0" decodes to 0, which is not a
    number between 10 and 99. *)
Lemma decode_line_not_two_digits :
  decode_line (str "0") false = Ok (Some 0) /\
  ~ (forall v, decode_line (str "0") false = Ok (Some v) -> 10 <= v <= 99).
Proof.
  split; [reflexivity|].
  intros H. specialize (H 0 eq_refl). lia.
Qed.

(** C10. The forward search finds a value exactly when the backward
    search does; [decode_line] never raises and returns either [None] or
    the two found digits joined, never one digit used twice. *)
Theorem searches_find_together (line : pystr) (wc : bool) :
  exists st, scan line wc = Ok st /\
    (first_num st = None <-> last_num st = None) /\
    match first_num st, last_num st with
    | None, None => decode_line line wc = Ok None
    | Some f, Some l =>
        int (repr_int f ++ repr_int l) = Ok (10 * f + l) /\
        decode_line line wc = Ok (Some (10 * f + l))
    | _, _ => False
    end.
Proof.
  destruct (scan_total line wc) as (st & Hs & Hv).
  exists st. split; [exact Hs|]. split; [exact (scan_sides line wc st Hs)|].
  destruct (decode_line_of_scan line wc)
    as [[Hs' H] | (f & l & Hs' & Hf & Hl & H)];
    rewrite Hs' in Hs; injection Hs as <-; cbn [first_num last_num].
  - exact H.
  - split; [|exact H].
    apply int_concat; [apply (Hf f) | apply (Hl l)]; reflexivity.
Qed.

(** C5, as the code has it. [sum_lines] strips each line and decodes it;
    when every line decodes to a value it returns their sum, and when
    some line decodes to [None] the addition raises [TypeError] and no
    total is returned. *)
Theorem sum_lines_total (lines : list pystr) (wc : bool) :
  (Forall (fun line => exists v, decode_line (strip line) wc = Ok (Some v))
          lines ->
   snd (sum_lines lines wc) = Ok (sum_lines_spec lines wc)) /\
  (Exists (fun line => decode_line (strip line) wc = Ok None) lines ->
   snd (sum_lines lines wc) = Raise TypeError).
Proof.
  unfold sum_lines. split; intros H.
  - rewrite sum_loop_values by exact H. reflexivity.
  - apply sum_loop_none. exact H.
Qed.

Lemma sum_lines_total_witness :
  snd (sum_lines [str "  1abc2" ++ [newline]; str "treb7uchet" ++ [newline]]
                 false) = Ok 89 /\
  snd (sum_lines [str "1abc2" ++ [newline]; [newline]] false)
  = Raise TypeError.
Proof.
  split.
  - apply (proj1 (sum_lines_total
             [str "  1abc2" ++ [newline]; str "treb7uchet" ++ [newline]]
             false)).
    repeat constructor; eexists; vm_compute; reflexivity.
  - apply (proj2 (sum_lines_total [str "1abc2" ++ [newline]; [newline]]
                                  false)).
    apply Exists_cons_tl, Exists_cons_hd. vm_compute. reflexivity.
Defined.

(** C5, as stated, fails: on a file whose second line is blank the
    specification's total is 12, with the blank line counting for 0, but
    [sum_lines] raises instead of returning it. *)
Lemma sum_lines_blank_line_raises :
  sum_lines_spec [str "1abc2" ++ [newline]; [newline]] false = 12 /\
  snd (sum_lines [str "1abc2" ++ [newline]; [newline]] false)
  = Raise TypeError /\
  snd (sum_lines [str "1abc2" ++ [newline]; [newline]] false)
  <> Ok (sum_lines_spec [str "1abc2" ++ [newline]; [newline]] false).
Proof.
  split; [reflexivity|]. split; [reflexivity|]. discriminate.
Qed.

(* ================================================================== *)
(** ** The dice games *)
(* ================================================================== *)

Section DiceFacts.

Lemma running_max_ge (l : list Z) (a : Z) :
  a <= running_max l a /\ forall x, In x l -> x <= running_max l a.
Proof.
  unfold running_max. revert a. induction l as [|y l IH]; intros a; simpl.
  - split; [lia | intros x []].
  - destruct (IH (Z.max a y)) as [H1 H2]. split; [lia|].
    intros x [<- | Hx]; [lia | auto].
Qed.

Lemma running_max_attained (l : list Z) (a : Z) :
  running_max l a = a \/ In (running_max l a) l.
Proof.
  unfold running_max. revert a. induction l as [|y l IH]; intros a; simpl.
  - left. reflexivity.
  - destruct (IH (Z.max a y)) as [H | H]; [|right; right; exact H].
    rewrite H. destruct (Z.max_spec a y) as [[_ ->] | [_ ->]]; auto.
Qed.

Lemma running_max_le (l : list Z) (a m : Z) :
  running_max l a <= m <-> a <= m /\ forall x, In x l -> x <= m.
Proof.
  split.
  - intros H. destruct (running_max_ge l a) as [H1 H2]. split; [lia|].
    intros x Hx. specialize (H2 x Hx). lia.
  - intros [Ha Hl].
    destruct (running_max_attained l a) as [-> | Hin]; [exact Ha | auto].
Qed.

Lemma max_body_counts (r g b : Z) (group : DiceGroup) :
  max_body [(str "red", r); (str "green", g); (str "blue", b)] group =
  Ok [(str "red", Z.max r (num_red group));
      (str "green", Z.max g (num_green group));
      (str "blue", Z.max b (num_blue group))].
Proof. reflexivity. Qed.

Lemma max_loop_counts (groups : list DiceGroup) (r g b : Z) :
  max_loop groups None [(str "red", r); (str "green", g); (str "blue", b)] =
  Ok [(str "red", running_max (map num_red groups) r);
      (str "green", running_max (map num_green groups) g);
      (str "blue", running_max (map num_blue groups) b)].
Proof.
  revert r g b. induction groups as [|group groups IH]; intros r g b.
  - reflexivity.
  - cbn [max_loop]. rewrite max_body_counts. cbn [bind]. rewrite IH.
    reflexivity.
Qed.

Lemma max_dice_group_eq (groups : list DiceGroup) :
  max_dice_group (iter groups) =
  Ok (mkDiceGroup (running_max (map num_blue groups) 0)
                  (running_max (map num_green groups) 0)
                  (running_max (map num_red groups) 0)).
Proof.
  unfold max_dice_group, iter. cbn [yielded raised].
  rewrite max_loop_counts. reflexivity.
Qed.

Lemma dg_gt_false (draw bag : DiceGroup) :
  __gt__ draw (VDiceGroup bag) = Ok false <-> fits_within draw bag.
Proof.
  unfold __gt__, fits_within. split.
  - intros H. injection H as H.
    apply orb_false_iff in H. destruct H as [H Hr].
    apply orb_false_iff in H. destruct H as [Hb Hg].
    rewrite Z.gtb_ltb in Hb, Hg, Hr.
    apply Z.ltb_ge in Hb, Hg, Hr. auto.
  - intros (Hb & Hg & Hr). f_equal.
    rewrite !Z.gtb_ltb.
    apply Z.ltb_ge in Hb, Hg, Hr. rewrite Hb, Hg, Hr. reflexivity.
Qed.

Lemma dg_gt_total (draw bag : DiceGroup) :
  __gt__ draw (VDiceGroup bag) = Ok false \/
  __gt__ draw (VDiceGroup bag) = Ok true.
Proof. unfold __gt__. destruct (_ || _); auto. Qed.

Lemma validate_loop_true (draws : list DiceGroup) (bag : DiceGroup) :
  validate_loop draws None bag = Ok true <->
  Forall (fun draw => fits_within draw bag) draws.
Proof.
  induction draws as [|draw draws IH]; cbn [validate_loop].
  - split; [constructor | reflexivity].
  - destruct (dg_gt_total draw bag) as [E | E]; rewrite E; cbn [bind].
    + rewrite IH. apply dg_gt_false in E. split.
      * intros H. constructor; assumption.
      * intros H. inversion H. assumption.
    + split; [discriminate|]. intros H. inversion H as [|? ? Hf _]. subst.
      apply dg_gt_false in Hf. congruence.
Qed.

Lemma validate_loop_total (draws : list DiceGroup) (bag : DiceGroup) :
  exists b, validate_loop draws None bag = Ok b.
Proof.
  induction draws as [|draw draws IH]; cbn [validate_loop].
  - eauto.
  - destruct (dg_gt_total draw bag) as [E | E]; rewrite E; cbn [bind]; eauto.
Qed.

(** *** Reading one draw *)

Lemma count_put_same (c : colour) (n : Z) (g : DiceGroup) :
  count c (put c n g) = n.
Proof. destruct c; reflexivity. Qed.

Lemma count_put_other (c c' : colour) (n : Z) (g : DiceGroup) :
  c <> c' -> count c (put c' n g) = count c g.
Proof. destruct c, c'; intros H; try reflexivity; congruence. Qed.

Lemma token_count_raise (t : pystr) (e : exn) :
  token_count t = Raise e -> e = ValueError.
Proof.
  unfold token_count.
  destruct (split_nonempty " " (strip t)) as (p & ps & ->).
  rewrite getitem_first. cbn [bind]. apply int_raise.
Qed.

Lemma colour_loop_eq (token : pystr) (g : DiceGroup) :
  colour_loop token (dict_keys (counts_dict g)) (counts_dict g) =
  match colour_of token with
  | None => Ok (counts_dict g)
  | Some c => n <- token_count token ;; Ok (counts_dict (put c n g))
  end.
Proof.
  unfold colour_of, token_count, counts_dict, dict_keys.
  cbn [map fst colour_loop].
  destruct (contains (str "blue") token);
    [destruct (getitem _ 0) as [piece|]; cbn [bind]; [|reflexivity];
     destruct (int piece); reflexivity|].
  destruct (contains (str "green") token);
    [destruct (getitem _ 0) as [piece|]; cbn [bind]; [|reflexivity];
     destruct (int piece); reflexivity|].
  destruct (contains (str "red") token);
    [destruct (getitem _ 0) as [piece|]; cbn [bind]; [|reflexivity];
     destruct (int piece); reflexivity|].
  reflexivity.
Qed.

Lemma collection_loop_ok (tokens : list pystr) (g : DiceGroup)
    (d : dict Z) :
  collection_loop tokens (counts_dict g) = Ok d ->
  exists g', d = counts_dict g' /\
    forall c : colour,
      (Forall (fun t => colour_of t <> Some c) tokens /\
       count c g' = count c g) \/
      (exists pre t post,
         tokens = pre ++ t :: post /\
         colour_of t = Some c /\
         Forall (fun t' => colour_of t' <> Some c) post /\
         token_count t = Ok (count c g')).
Proof.
  revert g. induction tokens as [|t ts IH]; intros g H;
    cbn [collection_loop] in H.
  - injection H as <-. exists g. split; [reflexivity|].
    intros c. left. split; [constructor | reflexivity].
  - rewrite colour_loop_eq in H. destruct (colour_of t) as [c0|] eqn:Ec.
    + destruct (token_count t) as [n|e] eqn:En; cbn [bind] in H;
        [|discriminate].
      destruct (IH _ H) as (g' & -> & Hg'). exists g'.
      split; [reflexivity|]. intros c.
      destruct (Hg' c) as [[Hall Hc] | (pre & t' & post & -> & H1 & H2 & H3)].
      * assert (Dc : c = c0 \/ c <> c0) by (destruct c, c0; auto; right; discriminate).
        destruct Dc as [-> | Hne].
        -- right. exists [], t, ts. rewrite count_put_same in Hc.
           repeat split; auto. rewrite Hc. exact En.
        -- left. rewrite count_put_other in Hc by exact Hne.
           split; [|exact Hc]. constructor; [congruence | exact Hall].
      * right. exists (t :: pre), t', post. repeat split; auto.
    + cbn [bind] in H. destruct (IH _ H) as (g' & -> & Hg'). exists g'.
      split; [reflexivity|]. intros c.
      destruct (Hg' c) as [[Hall Hc] | (pre & t' & post & -> & H1 & H2 & H3)].
      * left. split; [|exact Hc]. constructor; [congruence | exact Hall].
      * right. exists (t :: pre), t', post. repeat split; auto.
Qed.

Lemma collection_loop_raise (tokens : list pystr) (g : DiceGroup)
    (e : exn) :
  collection_loop tokens (counts_dict g) = Raise e ->
  e = ValueError /\
  exists t, In t tokens /\ colour_of t <> None /\
            token_count t = Raise ValueError.
Proof.
  revert g. induction tokens as [|t ts IH]; intros g H;
    cbn [collection_loop] in H; [discriminate|].
  rewrite colour_loop_eq in H. destruct (colour_of t) as [c0|] eqn:Ec.
  - destruct (token_count t) as [n|e'] eqn:En; cbn [bind] in H.
    + destruct (IH _ H) as (-> & t' & Hin & Hc & Ht).
      split; [reflexivity|]. exists t'. split; [right; exact Hin | auto].
    + injection H as <-. pose proof (token_count_raise t e' En) as ->.
      split; [reflexivity|]. exists t.
      split; [left; reflexivity|]. split; [congruence | exact En].
  - cbn [bind] in H. destruct (IH _ H) as (-> & t' & Hin & Hc & Ht).
    split; [reflexivity|]. exists t'. split; [right; exact Hin | auto].
Qed.

Lemma collection_loop_reads (tokens : list pystr) (g : DiceGroup)
    (d : dict Z) :
  collection_loop tokens (counts_dict g) = Ok d ->
  forall t, In t tokens -> colour_of t <> None ->
            exists n, token_count t = Ok n.
Proof.
  revert g. induction tokens as [|t ts IH]; intros g H t' Hin Hc;
    cbn [collection_loop] in H; [destruct Hin|].
  rewrite colour_loop_eq in H. destruct (colour_of t) as [c0|] eqn:Ec.
  - destruct (token_count t) as [n|e] eqn:En; cbn [bind] in H;
      [|discriminate].
    destruct Hin as [<- | Hin]; [exists n; exact En|].
    apply (IH _ H t' Hin Hc).
  - cbn [bind] in H. destruct Hin as [<- | Hin]; [congruence|].
    apply (IH _ H t' Hin Hc).
Qed.

Lemma parse_game_reads (draw : pystr) (g : DiceGroup) :
  parse_game draw = Ok g -> ~ draw_fails draw.
Proof.
  unfold parse_game. intros H (t & Hin & Hc & Hf).
  change [(str "blue", 0); (str "green", 0); (str "red", 0)]
    with (counts_dict (mkDiceGroup 0 0 0)) in H.
  destruct (collection_loop _ _) as [d|e] eqn:E; cbn [bind] in H;
    [|discriminate].
  destruct (collection_loop_reads _ _ _ E t Hin Hc) as [n Hn].
  congruence.
Qed.

Lemma parse_game_ok (draw : pystr) (g : DiceGroup) :
  parse_game draw = Ok g -> draw_denotes draw g.
Proof.
  unfold parse_game. intros H.
  change [(str "blue", 0); (str "green", 0); (str "red", 0)]
    with (counts_dict (mkDiceGroup 0 0 0)) in H.
  destruct (collection_loop _ _) as [d|e] eqn:E; cbn [bind] in H;
    [|discriminate].
  apply collection_loop_ok in E. destruct E as (g' & -> & Hg').
  assert (g = g') by (destruct g'; cbn in H; congruence). subst g'.
  intros c. destruct (Hg' c) as [[Hall Hc] | Hex].
  - left. split; [exact Hall|]. rewrite Hc. destruct c; reflexivity.
  - right. exact Hex.
Qed.

Lemma parse_game_raise (draw : pystr) (e : exn) :
  parse_game draw = Raise e -> e = ValueError /\ draw_fails draw.
Proof.
  unfold parse_game. intros H.
  change [(str "blue", 0); (str "green", 0); (str "red", 0)]
    with (counts_dict (mkDiceGroup 0 0 0)) in H.
  destruct (collection_loop _ _) as [d|e'] eqn:E; cbn [bind] in H.
  - apply collection_loop_ok in E. destruct E as (g' & -> & _).
    destruct g'. cbn in H. discriminate.
  - injection H as <-. apply collection_loop_raise in E. exact E.
Qed.

(** *** The sequence of draws *)

Lemma games_loop_draws (draws : list pystr) :
  exists gs e,
    games_loop draws = Iterable gs e /\
    Forall2 (fun d g => draw_denotes d g /\ ~ draw_fails d)
      (firstn (List.length gs) draws) gs /\
    (e = None -> List.length gs = List.length draws) /\
    (forall x, e = Some x ->
       x = ValueError /\
       exists d, nth_error draws (List.length gs) = Some d /\ draw_fails d).
Proof.
  induction draws as [|d ds IH]; cbn [games_loop].
  - exists [], None. split; [reflexivity|]. split; [constructor|].
    split; [reflexivity | discriminate].
  - destruct (parse_game d) as [g|x] eqn:E.
    + destruct IH as (gs & e & -> & Hden & Hlen & Hfail).
      exists (g :: gs), e. cbn [yielded raised List.length firstn nth_error].
      split; [reflexivity|]. split; [|split].
      * constructor; [|exact Hden].
        split; [apply parse_game_ok | apply (parse_game_reads d g)]; exact E.
      * intros He. rewrite (Hlen He). reflexivity.
      * exact Hfail.
    + exists [], (Some x). cbn [List.length firstn nth_error].
      split; [reflexivity|]. split; [constructor|]. split; [discriminate|].
      intros x' Hx. injection Hx as <-.
      destruct (parse_game_raise d x E) as [-> Hf].
      split; [reflexivity|]. exists d. split; [reflexivity | exact Hf].
Qed.

Lemma parse_game_string_body (label body tail : pystr) :
  ~ In ":"%char label -> ~ In ":"%char body ->
  tail = [] \/ (exists t, tail = ":"%char :: t) ->
  parse_game_string (label ++ ":"%char :: body ++ tail) =
  games_loop (split ";" (strip body)).
Proof.
  intros Hl Hb Ht. unfold parse_game_string.
  rewrite split_app by exact Hl.
  destruct Ht as [-> | [t ->]].
  - rewrite app_nil_r, split_no_sep by exact Hb.
    rewrite getitem_second. reflexivity.
  - rewrite split_app by exact Hb.
    destruct (split_nonempty ":" t) as (p & ps & ->).
    rewrite getitem_second. reflexivity.
Qed.

End DiceFacts.

(* ================================================================== *)
(** ** Claims about the dice games *)
(* ================================================================== *)

(** C2. [validate_game(draws, bag)] returns [True] exactly when every
    colour count of every draw is at most the bag's count for that
    colour, which is to say when no draw exceeds the bag under [>];
    otherwise it returns [False]. *)
Theorem validate_game_fits (draws : list DiceGroup) (bag : DiceGroup) :
  (validate_game (iter draws) bag = Ok true <->
   forall draw, In draw draws -> fits_within draw bag) /\
  (validate_game (iter draws) bag = Ok true <->
   forall draw, In draw draws -> __gt__ draw (VDiceGroup bag) = Ok false) /\
  (validate_game (iter draws) bag = Ok true \/
   validate_game (iter draws) bag = Ok false).
Proof.
  unfold validate_game, iter. cbn [yielded raised].
  pose proof (validate_loop_true draws bag) as T.
  rewrite Forall_forall in T.
  split; [exact T|]. split.
  - rewrite T. split; intros H draw Hin; apply dg_gt_false; auto.
  - destruct (validate_loop_total draws bag) as [[|] ->]; auto.
Qed.

(** C8. The relation behind [>] and [<] on [DiceGroup] (some colour is
    strictly greater, respectively smaller) is not antisymmetric: two
    different groups can each exceed the other, on different colours. *)
Theorem exceeds_not_antisymmetric :
  exists a b : DiceGroup,
    a <> b /\
    __gt__ a (VDiceGroup b) = Ok true /\ __gt__ b (VDiceGroup a) = Ok true /\
    __lt__ a (VDiceGroup b) = Ok true /\ __lt__ b (VDiceGroup a) = Ok true.
Proof.
  exists (mkDiceGroup 1 0 0), (mkDiceGroup 0 1 0).
  split; [discriminate|]. repeat split; reflexivity.
Qed.

(** C3. [max_dice_group] returns, for each colour separately, the
    largest count of that colour among the draws (0 when there is no
    draw): no draw has more, and over draws with no negative count some
    draw has as much. The result is the least bag that validates the
    draws: a bag with no negative count validates them exactly when it
    holds at least the result in every colour. On [(10,1,2), (5,3,4)] it
    returns (10,3,4), of power 120. *)
Theorem max_dice_group_minimal_bag (draws : list DiceGroup)
    (bag : DiceGroup) :
  (exists m, max_dice_group (iter draws) = Ok m /\
     (forall draw, In draw draws -> fits_within draw m) /\
     (draws = [] -> m = mkDiceGroup 0 0 0) /\
     (Forall nonneg draws -> draws <> [] ->
        In (num_blue m) (map num_blue draws) /\
        In (num_green m) (map num_green draws) /\
        In (num_red m) (map num_red draws)) /\
     (nonneg bag ->
        (validate_game (iter draws) bag = Ok true <-> fits_within m bag))) /\
  max_dice_group (iter [mkDiceGroup 10 1 2; mkDiceGroup 5 3 4])
    = Ok (mkDiceGroup 10 3 4) /\
  power (mkDiceGroup 10 3 4) = 120.
Proof.
  split; [|split; reflexivity].
  eexists. split; [apply max_dice_group_eq|].
  assert (Hattained : forall (f : DiceGroup -> Z),
            Forall nonneg draws ->
            (forall d, nonneg d -> 0 <= f d) -> draws <> [] ->
            In (running_max (map f draws) 0) (map f draws)).
  { intros f Hdraws Hf Hne.
    destruct (running_max_attained (map f draws) 0) as [E | Hin];
      [|exact Hin].
    destruct draws as [|d ds]; [congruence|].
    inversion Hdraws as [|? ? Hd _]. subst.
    destruct (running_max_ge (map f (d :: ds)) 0) as [_ Hge].
    specialize (Hge (f d) (or_introl eq_refl)). specialize (Hf d Hd).
    rewrite E in *. left. lia. }
  split; [|split; [|split; [|]]].
  - intros draw Hin. unfold fits_within. cbn [num_blue num_green num_red].
    repeat split; apply running_max_ge; apply in_map; exact Hin.
  - intros ->. reflexivity.
  - intros Hdraws Hne. cbn [num_blue num_green num_red].
    repeat split; apply Hattained; auto; unfold nonneg; tauto.
  - intros Hbag. unfold validate_game, iter. cbn [yielded raised].
    rewrite validate_loop_true, Forall_forall.
    unfold fits_within. cbn [num_blue num_green num_red].
    rewrite !running_max_le. destruct Hbag as (Hb & Hg & Hr). split.
    + intros H. repeat split; auto; intros x Hx;
        apply in_map_iff in Hx; destruct Hx as (d & <- & Hd); apply (H d Hd).
    + intros ((_ & H1) & (_ & H2) & (_ & H3)) d Hd.
      repeat split; [apply H1 | apply H2 | apply H3]; apply in_map; exact Hd.
Qed.

Lemma max_dice_group_minimal_bag_witness :
  exists m,
    max_dice_group (iter [mkDiceGroup 10 1 2; mkDiceGroup 5 3 4]) = Ok m /\
    (In (num_blue m) [10; 5] /\ In (num_green m) [1; 3] /\
     In (num_red m) [2; 4]) /\
    (validate_game (iter [mkDiceGroup 10 1 2; mkDiceGroup 5 3 4])
                   (mkDiceGroup 14 13 12) = Ok true <->
     fits_within m (mkDiceGroup 14 13 12)).
Proof.
  destruct (max_dice_group_minimal_bag
              [mkDiceGroup 10 1 2; mkDiceGroup 5 3 4] (mkDiceGroup 14 13 12))
    as [(m & H1 & _ & _ & H2 & H3) _].
  exists m. split; [exact H1|]. split.
  - apply H2; [|discriminate].
    constructor; [unfold nonneg; simpl; lia|].
    constructor; [unfold nonneg; simpl; lia|]. constructor.
  - apply H3. unfold nonneg. simpl. lia.
Defined.

(** C6, as the code has it. Of a line with a colon, [parse_game_string]
    reads what stands between the first colon and the next one (all that
    follows the first colon when there is no other), split on semicolons
    into draws, and yields one [DiceGroup] per draw in line order
    up to the first draw that fails, where it raises [ValueError]; with
    no such draw it yields a group for every draw and raises nothing. A
    draw fails when one of its comma-separated tokens names a colour and
    [int] does not read the text the stripped token has before its first
    space. In a yielded group a colour that no token of the draw names
    is 0, and any other colour has the number of the last token naming
    it, a token naming the first of "blue", "green", "red" it contains.
    So a draw " x red, 3 red" raises, though its last token for red
    reads 3. *)
Theorem parse_game_string_draws (label body tail : pystr)
    (Hlabel : ~ In ":"%char label) (Hbody : ~ In ":"%char body)
    (Htail : tail = [] \/ exists t, tail = ":"%char :: t) :
  (exists gs e,
     parse_game_string (label ++ ":"%char :: body ++ tail) = Iterable gs e /\
     Forall2 (fun d g => draw_denotes d g /\ ~ draw_fails d)
       (firstn (List.length gs) (split ";" (strip body))) gs /\
     (e = None -> List.length gs = List.length (split ";" (strip body))) /\
     (forall x, e = Some x ->
        x = ValueError /\
        exists d, nth_error (split ";" (strip body)) (List.length gs) = Some d /\
                  draw_fails d)) /\
  parse_game_string (label ++ ":"%char :: body ++ tail) =
    parse_game_string_spec (label ++ ":"%char :: body) /\
  parse_game_string (str "Game 1: 1 green, 7 red; 1 green, 9 red, 3 blue") =
    Iterable [mkDiceGroup 0 1 7; mkDiceGroup 3 1 9] None /\
  parse_game_string (str "Game 1: 2 blue; x red, 3 red; 4 green") =
    Iterable [mkDiceGroup 2 0 0] (Some ValueError).
Proof.
  rewrite (parse_game_string_body label body tail Hlabel Hbody Htail).
  split; [apply games_loop_draws|].
  split; [|split; vm_compute; reflexivity].
  unfold parse_game_string_spec. rewrite after_first_app by exact Hlabel.
  reflexivity.
Qed.

Lemma parse_game_string_draws_witness :
  exists gs e,
    parse_game_string (str "Game 1: 1 green, 7 red; 1 green, 9 red, 3 blue")
      = Iterable gs e /\
    Forall2 (fun d g => draw_denotes d g /\ ~ draw_fails d)
      (firstn (List.length gs)
         [str "1 green, 7 red"; str " 1 green, 9 red, 3 blue"]) gs /\
    (e = None -> List.length gs = 2%nat).
Proof.
  destruct (parse_game_string_draws
              (str "Game 1") (str " 1 green, 7 red; 1 green, 9 red, 3 blue")
              [])
    as [(gs & e & H1 & H2 & H3 & _) _].
  - simpl. intros H. repeat (destruct H as [H | H]; [discriminate H|]).
    exact H.
  - simpl. intros H. repeat (destruct H as [H | H]; [discriminate H|]).
    exact H.
  - left. reflexivity.
  - exists gs, e. split; [exact H1|]. split; [exact H2 | exact H3].
Defined.

(** C6, as stated, fails: on a line with a second colon the remainder
    after the first colon holds two draws, and [parse_game_string] yields
    only the one that stands before the second colon. *)
Lemma parse_game_string_second_colon :
  parse_game_string_spec (str "Game 1: 3 red:; 4 blue") =
    Iterable [mkDiceGroup 0 0 3; mkDiceGroup 4 0 0] None /\
  parse_game_string (str "Game 1: 3 red:; 4 blue") =
    Iterable [mkDiceGroup 0 0 3] None /\
  parse_game_string (str "Game 1: 3 red:; 4 blue") <>
    parse_game_string_spec (str "Game 1: 3 red:; 4 blue").
Proof.
  split; [reflexivity|]. split; [reflexivity|]. discriminate.
Qed.

(* ================================================================== *)
(** ** More about the primitives: blanks and decimal numbers *)
(* ================================================================== *)

Section NumberFacts.

Lemma dropwhile_id {A : Type} (p : A -> bool) (s : list A) :
  (forall c, hd_error s = Some c -> p c = false) -> dropwhile p s = s.
Proof.
  destruct s as [|c s]; intros H; simpl; [reflexivity|].
  rewrite (H c eq_refl). reflexivity.
Qed.

Lemma dropwhile_app {A : Type} (p : A -> bool) (a s : list A) :
  Forall (fun c => p c = true) a -> dropwhile p (a ++ s) = dropwhile p s.
Proof.
  induction a as [|c a IH]; intros H; simpl; [reflexivity|].
  inversion H as [|? ? Hc Ha]. subst. rewrite Hc. apply IH. exact Ha.
Qed.

(** Stripping removes the blanks around a text that neither starts nor
    ends with one. *)
Lemma strip_by_around (p : ascii -> bool) (a s b : pystr) :
  Forall (fun c => p c = true) a -> Forall (fun c => p c = true) b ->
  (forall c, hd_error s = Some c -> p c = false) ->
  (forall c, hd_error (rev s) = Some c -> p c = false) ->
  strip_by p (a ++ s ++ b) = s.
Proof.
  intros Ha Hb Hh Hl. unfold strip_by.
  rewrite dropwhile_app by exact Ha.
  destruct s as [|c s].
  - simpl. rewrite <- (app_nil_r b), dropwhile_app by exact Hb. reflexivity.
  - cbn [app dropwhile]. rewrite (Hh c eq_refl).
    change (c :: s ++ b) with ((c :: s) ++ b).
    rewrite rev_app_distr, dropwhile_app.
    + rewrite dropwhile_id by exact Hl. apply rev_involutive.
    + apply Forall_rev. exact Hb.
Qed.

Lemma strip_by_id (p : ascii -> bool) (s : pystr) :
  (forall c, hd_error s = Some c -> p c = false) ->
  (forall c, hd_error (rev s) = Some c -> p c = false) ->
  strip_by p s = s.
Proof.
  intros Hh Hl. rewrite <- (strip_by_around p [] s []) at 2; auto.
  rewrite app_nil_r. reflexivity.
Qed.

(** What stripping returns has no blank at either end. *)
Lemma strip_by_ends (p : ascii -> bool) (s : pystr) :
  (forall c, hd_error (strip_by p s) = Some c -> p c = false) /\
  (forall c, hd_error (rev (strip_by p s)) = Some c -> p c = false).
Proof.
  assert (D : forall t c, hd_error (dropwhile p t) = Some c -> p c = false).
  { induction t as [|x t IH]; intros c; simpl; [discriminate|].
    destruct (p x) eqn:E; [apply IH|]. simpl. congruence. }
  unfold strip_by. rewrite rev_involutive. split; [|apply D].
  intros c Hc.
  destruct (dropwhile p s) as [|x t] eqn:E; [discriminate|].
  pose proof (D s x) as Hx. rewrite E in Hx. specialize (Hx eq_refl).
  simpl in Hc.
  assert (K : forall u, dropwhile p (u ++ [x]) = dropwhile p u ++ [x]).
  { induction u as [|y u IH]; simpl; [rewrite Hx; reflexivity|].
    destruct (p y); [exact IH | reflexivity]. }
  rewrite K, rev_app_distr in Hc. simpl in Hc. congruence.
Qed.

Lemma strip_by_idempotent (p : ascii -> bool) (s : pystr) :
  strip_by p (strip_by p s) = strip_by p s.
Proof. apply strip_by_id; apply strip_by_ends. Qed.

(** The digits of a decimal number, as characters. *)
Lemma uint_chars_digits (d : Decimal.uint) :
  Forall (fun c => isdigit c = true) (str (NilEmpty.string_of_uint d)).
Proof.
  induction d; simpl; constructor; solve [reflexivity | assumption].
Qed.

Lemma int_digits_acc (d : Decimal.uint) (acc : positive) :
  int_digits (Z.pos acc) true (str (NilEmpty.string_of_uint d)) =
  Ok (Z.pos (Pos.of_uint_acc d acc)).
Proof.
  revert acc. induction d; intros acc; cbn [NilEmpty.string_of_uint str
    list_ascii_of_string int_digits Pos.of_uint_acc]; [reflexivity | ..];
    (change (isdigit _) with true; cbv iota;
     match goal with
     | |- int_digits (_ + (ord ?c - 48)) true _
          = Ok (Z.pos (Pos.of_uint_acc _ ?b)) =>
         let v := eval vm_compute in (ord c) in
         change (ord c) with v;
         match goal with
         | |- int_digits ?a true _ = _ => replace a with (Z.pos b) by lia
         end
     end; apply IHd).
Qed.

Lemma int_digits_uint (d : Decimal.uint) :
  int_digits 0 true (str (NilEmpty.string_of_uint d)) =
  Ok (Z.of_N (Pos.of_uint d)).
Proof.
  induction d; cbn [NilEmpty.string_of_uint str list_ascii_of_string
    int_digits Pos.of_uint]; [reflexivity | ..];
    change (isdigit _) with true; cbv iota.
  - exact IHd.
  - apply (int_digits_acc d 1).
  - apply (int_digits_acc d 2).
  - apply (int_digits_acc d 3).
  - apply (int_digits_acc d 4).
  - apply (int_digits_acc d 5).
  - apply (int_digits_acc d 6).
  - apply (int_digits_acc d 7).
  - apply (int_digits_acc d 8).
  - apply (int_digits_acc d 9).
Qed.

Lemma int_digits_first (d : Decimal.uint) :
  d <> Decimal.Nil ->
  int_digits 0 false (str (NilEmpty.string_of_uint d)) =
  int_digits 0 true (str (NilEmpty.string_of_uint d)).
Proof. destruct d; intros H; [congruence | reflexivity ..]. Qed.

End NumberFacts.

(* ================================================================== *)
(** ** More about the dice games *)
(* ================================================================== *)

Section GroupFacts.

Lemma running_max_unique (l l' : list Z) (a a' : Z) :
  (forall m, (a <= m /\ forall x, In x l -> x <= m) <->
             (a' <= m /\ forall x, In x l' -> x <= m)) ->
  running_max l a = running_max l' a'.
Proof.
  intros H. apply Z.le_antisymm.
  - apply running_max_le. apply H. apply running_max_le. lia.
  - apply running_max_le. apply H. apply running_max_le. lia.
Qed.

Lemma running_max_app (l1 l2 : list Z) (a : Z) :
  running_max (l1 ++ l2) a = Z.max (running_max l1 a) (running_max l2 a).
Proof.
  apply Z.le_antisymm.
  - apply running_max_le. split.
    + pose proof (running_max_ge l1 a). lia.
    + intros x Hx. apply in_app_or in Hx.
      destruct (running_max_ge l1 a) as [_ H1].
      destruct (running_max_ge l2 a) as [_ H2].
      destruct Hx as [Hx | Hx]; [specialize (H1 x Hx) | specialize (H2 x Hx)];
        lia.
  - assert (H : forall l, (forall x, In x l -> In x (l1 ++ l2)) ->
                  running_max l a <= running_max (l1 ++ l2) a).
    { intros l Hl. apply running_max_le.
      destruct (running_max_ge (l1 ++ l2) a) as [Ha Hin]. split; auto. }
    apply Z.max_lub; apply H; intros x Hx; apply in_or_app; auto.
Qed.

Lemma running_max_nonneg (l : list Z) : 0 <= running_max l 0.
Proof. exact (proj1 (running_max_ge l 0)). Qed.

Lemma max_loop_raise (groups : list DiceGroup) (e : exn) (r g b : Z) :
  max_loop groups (Some e)
    [(str "red", r); (str "green", g); (str "blue", b)] = Raise e.
Proof.
  revert r g b. induction groups as [|group groups IH]; intros r g b.
  - reflexivity.
  - cbn [max_loop]. rewrite max_body_counts. cbn [bind]. apply IH.
Qed.

Lemma validate_loop_eq (draws : list DiceGroup) (bag : DiceGroup) :
  validate_loop draws None bag = Ok (forallb (fun d => fitsb d bag) draws).
Proof.
  induction draws as [|d draws IH]; cbn [validate_loop forallb].
  - reflexivity.
  - unfold __gt__, fitsb. cbn [bind]. rewrite !Z.gtb_ltb.
    rewrite !(Z.leb_antisym (num_blue bag)), !(Z.leb_antisym (num_green bag)),
      !(Z.leb_antisym (num_red bag)).
    destruct (num_blue bag <? num_blue d), (num_green bag <? num_green d),
      (num_red bag <? num_red d); cbn; solve [reflexivity | exact IH].
Qed.

Lemma fitsb_fits (d bag : DiceGroup) : fitsb d bag = true <-> fits_within d bag.
Proof.
  unfold fitsb, fits_within. rewrite !andb_true_iff, !Z.leb_le. tauto.
Qed.

Lemma validate_loop_tail (draws : list DiceGroup) (e : exn)
    (bag : DiceGroup) :
  validate_loop draws (Some e) bag =
  if forallb (fun d => fitsb d bag) draws then Raise e else Ok false.
Proof.
  induction draws as [|d draws IH]; cbn [validate_loop forallb].
  - reflexivity.
  - unfold __gt__, fitsb. cbn [bind]. rewrite !Z.gtb_ltb.
    rewrite !(Z.leb_antisym (num_blue bag)), !(Z.leb_antisym (num_green bag)),
      !(Z.leb_antisym (num_red bag)).
    destruct (num_blue bag <? num_blue d), (num_green bag <? num_green d),
      (num_red bag <? num_red d); cbn; solve [reflexivity | exact IH].
Qed.

End GroupFacts.

(** X1. [==] on two [DiceGroup]s is [True] exactly when the three counts
    agree, so it is reflexive, symmetric and transitive; otherwise it is
    [False], and it never raises on a [DiceGroup]. *)
Theorem eq_reflects_equality (a b : DiceGroup) :
  (__eq__ a (VDiceGroup b) = Ok true <-> a = b) /\
  (__eq__ a (VDiceGroup b) = Ok false <-> a <> b) /\
  __eq__ a (VDiceGroup b) = __eq__ b (VDiceGroup a).
Proof.
  assert (E : __eq__ a (VDiceGroup b) = Ok true <-> a = b).
  { unfold __eq__. destruct a as [ab ag ar], b as [bb bg br].
    cbn [num_blue num_green num_red]. split.
    - intros H. apply Ok_inj in H.
      apply andb_true_iff in H. destruct H as [H Hr].
      apply andb_true_iff in H. destruct H as [Hb Hg].
      apply Z.eqb_eq in Hb, Hg, Hr. congruence.
    - intros H. injection H as -> -> ->. rewrite !Z.eqb_refl. reflexivity. }
  split; [exact E|]. split.
  - split.
    + intros H Eq. apply E in Eq. congruence.
    + intros H. unfold __eq__ in *.
      destruct (_ && _); [|reflexivity]. exfalso. apply H, E. reflexivity.
  - unfold __eq__. rewrite (Z.eqb_sym (num_blue a)), (Z.eqb_sym (num_green a)),
      (Z.eqb_sym (num_red a)). reflexivity.
Qed.

(** X2. [>] and [<] mirror each other ([a > b] is [b < a]), and of
    [a == b], [a > b], [a < b] at least one is [True]; [a >= b] is
    [False] exactly when [a] differs from [b] and is within [b] in every
    colour, so [not (bag >= draw)] does not say that the draw exceeds the
    bag. *)
Theorem comparisons_relate (a b : DiceGroup) :
  __gt__ a (VDiceGroup b) = __lt__ b (VDiceGroup a) /\
  (__eq__ a (VDiceGroup b) = Ok true \/ __gt__ a (VDiceGroup b) = Ok true \/
   __lt__ a (VDiceGroup b) = Ok true) /\
  (__ge__ a (VDiceGroup b) = Ok false <-> a <> b /\ fits_within a b) /\
  (__le__ a (VDiceGroup b) = Ok false <-> a <> b /\ fits_within b a).
Proof.
  destruct a as [ab ag ar], b as [bb bg br].
  unfold __ge__, __le__, __gt__, __lt__, __eq__, fits_within.
  cbn [num_blue num_green num_red bind].
  rewrite !Z.gtb_ltb.
  assert (Hne : forall x y x' y' x'' y'' : Z,
            mkDiceGroup x x' x'' <> mkDiceGroup y y' y'' <->
            (x <> y \/ x' <> y' \/ x'' <> y'')).
  { intros. split.
    - intros H. destruct (Z.eq_dec x y) as [->|]; [|auto].
      destruct (Z.eq_dec x' y') as [->|]; [|auto].
      destruct (Z.eq_dec x'' y'') as [->|]; [|auto]. congruence.
    - intros H E. injection E as -> -> ->. lia. }
  rewrite !Hne.
  destruct (Z.ltb_spec bb ab), (Z.ltb_spec bg ag), (Z.ltb_spec br ar),
    (Z.ltb_spec ab bb), (Z.ltb_spec ag bg), (Z.ltb_spec ar br),
    (Z.eqb_spec ab bb), (Z.eqb_spec ag bg), (Z.eqb_spec ar br);
    try lia; cbn;
    (split; [reflexivity|]); (split; [auto|]);
    split; split; try discriminate; try reflexivity; try lia.
Qed.

(** X3. [max_dice_group] over two batches of draws put together is the
    per-colour larger of its results on each batch, and the order of the
    draws does not matter. *)
Theorem max_dice_group_composes (l1 l2 : list DiceGroup) :
  (exists m1 m2,
     max_dice_group (iter l1) = Ok m1 /\ max_dice_group (iter l2) = Ok m2 /\
     max_dice_group (iter (l1 ++ l2)) = Ok (group_max m1 m2)) /\
  (Permutation l1 l2 -> max_dice_group (iter l1) = max_dice_group (iter l2)).
Proof.
  split.
  - eexists. eexists. split; [apply max_dice_group_eq|].
    split; [apply max_dice_group_eq|].
    rewrite max_dice_group_eq. unfold group_max.
    cbn [num_blue num_green num_red].
    rewrite !map_app, !running_max_app. reflexivity.
  - intros P. rewrite !max_dice_group_eq.
    assert (H : forall f : DiceGroup -> Z,
              running_max (map f l1) 0 = running_max (map f l2) 0).
    { intros f. apply running_max_unique. intros m.
      assert (I : forall x, In x (map f l1) <-> In x (map f l2)).
      { intros x. split; apply Permutation_in, Permutation_map;
          [exact P | apply Permutation_sym; exact P]. }
      split; intros [Ha Hl]; (split; [exact Ha|]); intros x Hx;
        apply Hl, I, Hx. }
    rewrite (H num_blue), (H num_green), (H num_red). reflexivity.
Qed.

Lemma max_dice_group_composes_witness :
  max_dice_group (iter [mkDiceGroup 10 1 2; mkDiceGroup 5 3 4]) =
  max_dice_group (iter [mkDiceGroup 5 3 4; mkDiceGroup 10 1 2]).
Proof.
  apply (proj2 (max_dice_group_composes
                  [mkDiceGroup 10 1 2; mkDiceGroup 5 3 4]
                  [mkDiceGroup 5 3 4; mkDiceGroup 10 1 2])).
  apply perm_swap.
Defined.

(** X4. Whatever the draws, also with negative counts, no count of the
    group [max_dice_group] returns is negative, so its power is not
    negative; and the power is 0 as soon as some colour has no positive
    count in any draw. *)
Theorem max_dice_group_power (draws : list DiceGroup) :
  exists m, max_dice_group (iter draws) = Ok m /\
    nonneg m /\ 0 <= power m /\
    ((forall d, In d draws -> num_blue d <= 0) \/
     (forall d, In d draws -> num_green d <= 0) \/
     (forall d, In d draws -> num_red d <= 0) -> power m = 0).
Proof.
  eexists. split; [apply max_dice_group_eq|].
  pose proof (running_max_nonneg (map num_blue draws)) as Hb.
  pose proof (running_max_nonneg (map num_green draws)) as Hg.
  pose proof (running_max_nonneg (map num_red draws)) as Hr.
  unfold nonneg, power. cbn [num_blue num_green num_red].
  split; [auto|]. split; [apply Z.mul_nonneg_nonneg; [apply Z.mul_nonneg_nonneg|]; assumption|].
  assert (Z0 : forall f : DiceGroup -> Z,
             (forall d, In d draws -> f d <= 0) ->
             running_max (map f draws) 0 = 0).
  { intros f Hf. apply Z.le_antisymm; [|apply running_max_nonneg].
    apply running_max_le. split; [lia|]. intros x Hx.
    apply in_map_iff in Hx. destruct Hx as (d & <- & Hd). auto. }
  intros [H | [H | H]]; rewrite (Z0 _ H); lia.
Qed.

Lemma max_dice_group_power_witness :
  exists m,
    max_dice_group (iter [mkDiceGroup 3 0 4; mkDiceGroup 6 0 1]) = Ok m /\
    power m = 0.
Proof.
  destruct (max_dice_group_power [mkDiceGroup 3 0 4; mkDiceGroup 6 0 1])
    as (m & H1 & _ & _ & H2).
  exists m. split; [exact H1|]. apply H2. right. left.
  intros d [<- | [<- | []]]; simpl; lia.
Defined.

(** X5. [validate_game] of two batches of draws put together is the
    conjunction of the two results, and a game valid for a bag is valid
    for every bag that holds at least as much of each colour. *)
Theorem validate_game_composes (l1 l2 : list DiceGroup)
    (bag bag' : DiceGroup) :
  (exists b1 b2,
     validate_game (iter l1) bag = Ok b1 /\
     validate_game (iter l2) bag = Ok b2 /\
     validate_game (iter (l1 ++ l2)) bag = Ok (b1 && b2)) /\
  (fits_within bag bag' -> validate_game (iter l1) bag = Ok true ->
   validate_game (iter l1) bag' = Ok true).
Proof.
  unfold validate_game, iter. cbn [yielded raised]. split.
  - eexists. eexists. split; [apply validate_loop_eq|].
    split; [apply validate_loop_eq|].
    rewrite validate_loop_eq, forallb_app. reflexivity.
  - intros Hb. rewrite !validate_loop_true, !Forall_forall.
    intros H d Hd. specialize (H d Hd). unfold fits_within in *. lia.
Qed.

Lemma validate_game_composes_witness :
  validate_game (iter [mkDiceGroup 3 0 4; mkDiceGroup 6 2 1])
                (mkDiceGroup 20 20 20) = Ok true.
Proof.
  apply (proj2 (validate_game_composes
                  [mkDiceGroup 3 0 4; mkDiceGroup 6 2 1] []
                  (mkDiceGroup 14 13 12) (mkDiceGroup 20 20 20))).
  - unfold fits_within. simpl. lia.
  - reflexivity.
Defined.

(** X6. On draws that come from a generator which raises after yielding
    some groups, [validate_game] returns [False] when one of the yielded
    groups exceeds the bag, without reaching the failure, and otherwise
    raises what the generator raised; [max_dice_group] always reaches the
    failure and raises it. *)
Theorem failing_generator (gs : list DiceGroup) (e : exn) (bag : DiceGroup) :
  (Exists (fun g => ~ fits_within g bag) gs ->
   validate_game (Iterable gs (Some e)) bag = Ok false) /\
  (Forall (fun g => fits_within g bag) gs ->
   validate_game (Iterable gs (Some e)) bag = Raise e) /\
  max_dice_group (Iterable gs (Some e)) = Raise e.
Proof.
  unfold validate_game, max_dice_group. cbn [yielded raised].
  rewrite validate_loop_tail, max_loop_raise. cbn [bind].
  split; [|split; [|reflexivity]].
  - intros H. destruct (forallb _ gs) eqn:E; [|reflexivity].
    exfalso. rewrite forallb_forall in E. apply Exists_exists in H.
    destruct H as (g & Hg & Hn). apply Hn, fitsb_fits, E, Hg.
  - intros H. rewrite Forall_forall in H.
    replace (forallb _ gs) with true; [reflexivity|].
    symmetry. apply forallb_forall. intros g Hg. apply fitsb_fits, H, Hg.
Qed.

Lemma failing_generator_witness :
  validate_game (Iterable [mkDiceGroup 3 0 4; mkDiceGroup 20 0 0]
                          (Some ValueError)) (mkDiceGroup 14 13 12)
  = Ok false /\
  validate_game (Iterable [mkDiceGroup 3 0 4] (Some ValueError))
                (mkDiceGroup 14 13 12) = Raise ValueError.
Proof.
  split.
  - apply (proj1 (failing_generator [mkDiceGroup 3 0 4; mkDiceGroup 20 0 0]
                    ValueError (mkDiceGroup 14 13 12))).
    apply Exists_cons_tl, Exists_cons_hd. unfold fits_within. simpl. lia.
  - apply (proj1 (proj2 (failing_generator [mkDiceGroup 3 0 4] ValueError
                           (mkDiceGroup 14 13 12)))).
    constructor; [unfold fits_within; simpl; lia | constructor].
Defined.

(* ================================================================== *)
(** ** More about reading a game line *)
(* ================================================================== *)

Section LineFacts.

Lemma getitem_out {A : Type} (s : list A) (i : Z) :
  len s <= i -> getitem s i = Raise IndexError.
Proof.
  intros H. unfold getitem. pose proof (len_nonneg s).
  destruct (Z.ltb_spec i 0); [lia|].
  destruct (Z.ltb_spec i 0); [lia|].
  destruct (Z.leb_spec (len s) i); [reflexivity | lia].
Qed.

Lemma split_first (sep : ascii) (label tail : pystr) :
  ~ In sep label -> tail = [] \/ (exists t, tail = sep :: t) ->
  exists ps, split sep (label ++ tail) = label :: ps /\
             (tail = [] -> ps = []) /\
             (forall t, tail = sep :: t -> ps = split sep t).
Proof.
  intros Hl [-> | [t ->]].
  - rewrite app_nil_r, split_no_sep by exact Hl. exists [].
    split; [reflexivity|]. split; [reflexivity | discriminate].
  - rewrite split_app by exact Hl. exists (split sep t).
    split; [reflexivity|]. split; [discriminate|].
    intros t' E. injection E as <-. reflexivity.
Qed.

Lemma collection_loop_ignored (tokens : list pystr) (g : DiceGroup) :
  Forall (fun t => colour_of t = None) tokens ->
  collection_loop tokens (counts_dict g) = Ok (counts_dict g).
Proof.
  induction tokens as [|t ts IH]; intros H; cbn [collection_loop].
  - reflexivity.
  - inversion H as [|? ? Ht Hts]. subst.
    rewrite colour_loop_eq, Ht. cbn [bind]. apply IH. exact Hts.
Qed.

Lemma colour_of_none (t : pystr) :
  (forall c, ~ occurs (colour_name c) t) -> colour_of t = None.
Proof.
  intros H. unfold colour_of.
  pose proof (contains_not_occurs _ _ (H Blue)) as Hb.
  pose proof (contains_not_occurs _ _ (H Green)) as Hg.
  pose proof (contains_not_occurs _ _ (H Red)) as Hr.
  cbn [colour_name] in Hb, Hg, Hr. rewrite Hb, Hg, Hr. reflexivity.
Qed.

Lemma parse_game_counts (draw : pystr) (g : DiceGroup) :
  collection_loop (tokens_of draw) (counts_dict (mkDiceGroup 0 0 0))
    = Ok (counts_dict g) ->
  parse_game draw = Ok g.
Proof.
  intros H. unfold parse_game.
  change [(str "blue", 0); (str "green", 0); (str "red", 0)]
    with (counts_dict (mkDiceGroup 0 0 0)).
  unfold tokens_of in H. rewrite H. destruct g. reflexivity.
Qed.

End LineFacts.

(** X7. A line without a colon makes [parse_game_string] raise
    [IndexError] before it yields anything, so [validate_game] and
    [max_dice_group] raise [IndexError] on it as well. *)
Theorem parse_game_string_no_colon (line : pystr) (bag : DiceGroup)
    (Hline : ~ In ":"%char line) :
  parse_game_string line = Iterable [] (Some IndexError) /\
  validate_game (parse_game_string line) bag = Raise IndexError /\
  max_dice_group (parse_game_string line) = Raise IndexError.
Proof.
  assert (E : parse_game_string line = Iterable [] (Some IndexError)).
  { unfold parse_game_string. rewrite split_no_sep by exact Hline.
    rewrite getitem_out; [reflexivity|]. reflexivity. }
  rewrite E. repeat split; reflexivity.
Qed.

Lemma parse_game_string_no_colon_witness :
  parse_game_string (str "Game 5") = Iterable [] (Some IndexError) /\
  validate_game (parse_game_string (str "Game 5")) (mkDiceGroup 14 13 12)
    = Raise IndexError /\
  max_dice_group (parse_game_string (str "Game 5")) = Raise IndexError.
Proof.
  apply (parse_game_string_no_colon (str "Game 5") (mkDiceGroup 14 13 12)).
  simpl. intros H. repeat (destruct H as [H | H]; [discriminate H|]).
  exact H.
Defined.

(** X8. Tokens that name no colour are ignored: a draw none of whose
    comma-separated tokens contains "blue", "green" or "red" is read as
    [DiceGroup(0, 0, 0)] without raising, whatever else it holds; so is
    the empty draw. *)
Theorem parse_game_unknown_colours (draw : pystr)
    (Hdraw : forall t c, In t (tokens_of draw) -> ~ occurs (colour_name c) t) :
  parse_game draw = Ok (mkDiceGroup 0 0 0) /\
  parse_game (str "") = Ok (mkDiceGroup 0 0 0).
Proof.
  split; [|reflexivity].
  apply parse_game_counts, collection_loop_ignored, Forall_forall.
  intros t Ht. apply colour_of_none. intros c. apply Hdraw. exact Ht.
Qed.

Lemma parse_game_unknown_colours_witness :
  parse_game (str " 3 pink, yellow") = Ok (mkDiceGroup 0 0 0) /\
  parse_game (str "") = Ok (mkDiceGroup 0 0 0).
Proof.
  apply (parse_game_unknown_colours (str " 3 pink, yellow")).
  intros t c Ht Ho. apply contains_occurs in Ho.
  vm_compute in Ht.
  destruct Ht as [<- | [<- | []]]; destruct c; vm_compute in Ho;
    discriminate Ho.
Defined.

(** X9. [get_game_number] returns [int] of the second space-separated
    word of what stands before the first colon (the whole line when there
    is no colon); the first word is not looked at. When that text holds
    no space it raises [IndexError], and it raises nothing but
    [IndexError] and [ValueError]. *)
Theorem get_game_number_second_word (label tail : pystr)
    (Hlabel : ~ In ":"%char label)
    (Htail : tail = [] \/ exists t, tail = ":"%char :: t) :
  (forall first word more,
     label = first ++ " "%char :: word ++ more ->
     ~ In " "%char first -> ~ In " "%char word ->
     more = [] \/ (exists t, more = " "%char :: t) ->
     get_game_number (label ++ tail) = int word) /\
  (~ In " "%char label -> get_game_number (label ++ tail) = Raise IndexError) /\
  (forall e, get_game_number (label ++ tail) = Raise e ->
     e = IndexError \/ e = ValueError).
Proof.
  destruct (split_first ":" label tail Hlabel Htail) as (ps & Hs & _).
  assert (E : get_game_number (label ++ tail) =
              (word <- getitem (split " " label) 1 ;; int word)).
  { unfold get_game_number. rewrite Hs, getitem_first. reflexivity. }
  rewrite E. split; [|split].
  - intros first word more -> Hf Hw Hm.
    rewrite split_app by exact Hf.
    destruct (split_first " " word more Hw Hm) as (qs & -> & _).
    rewrite getitem_second. reflexivity.
  - intros Hn. rewrite split_no_sep by exact Hn.
    rewrite getitem_out; reflexivity.
  - intros e. unfold getitem.
    destruct (_ || _); [cbn [bind]; intros H; left; congruence|].
    destruct (nth_error _ _); cbn [bind].
    + intros H. right. eapply int_raise. exact H.
    + intros H. left. congruence.
Qed.

Lemma get_game_number_second_word_witness :
  get_game_number (str "Match 100 of 120: 1 green")
  = int (str "100") /\
  get_game_number (str "Game100: 1 green") = Raise IndexError.
Proof.
  assert (N : forall (x : ascii) (s : pystr),
            existsb (Ascii.eqb x) s = false -> ~ In x s).
  { intros x s E H.
    assert (T : existsb (Ascii.eqb x) s = true).
    { apply existsb_exists. exists x. split; [exact H|].
      apply Ascii.eqb_refl. }
    congruence. }
  split.
  - destruct (get_game_number_second_word
                (str "Match 100 of 120") (str ": 1 green")) as [H _].
    + apply N. reflexivity.
    + right. eexists. reflexivity.
    + apply (H (str "Match") (str "100") (str " of 120")).
      * reflexivity.
      * simpl. intros K.
        repeat (destruct K as [K | K]; [discriminate K|]). exact K.
      * simpl. intros K.
        repeat (destruct K as [K | K]; [discriminate K|]). exact K.
      * right. eexists. reflexivity.
  - destruct (get_game_number_second_word
                (str "Game100") (str ": 1 green")) as (_ & H & _).
    + apply N. reflexivity.
    + right. eexists. reflexivity.
    + apply H. simpl. intros K.
      repeat (destruct K as [K | K]; [discriminate K|]). exact K.
Defined.

(* ================================================================== *)
(** ** Written numbers and written games *)
(* ================================================================== *)

Section RenderFacts.

Lemma strip_by_none (p : ascii -> bool) (s : pystr) :
  Forall (fun c => p c = false) s -> strip_by p s = s.
Proof.
  intros H. rewrite Forall_forall in H. apply strip_by_id; intros c Hc.
  - apply H. destruct s; [discriminate|]. injection Hc as ->. left.
    reflexivity.
  - apply H. apply in_rev. destruct (rev s); [discriminate|].
    injection Hc as ->. left. reflexivity.
Qed.

Lemma isdigit_plain (c : ascii) :
  isdigit c = true -> int_space c = false /\ plain c = true.
Proof.
  destruct c as [[] [] [] [] [] [] [] []]; vm_compute; intros H;
    solve [discriminate H | split; reflexivity].
Qed.

Lemma plain_spec (c : ascii) :
  plain c = true ->
  (c = " "%char \/ isspace c = false) /\
  c <> ":"%char /\ c <> ";"%char /\ c <> ","%char /\
  forall col, ~ In c (colour_name col).
Proof.
  destruct c as [[] [] [] [] [] [] [] []]; vm_compute; intros H;
    try discriminate H;
    (split; [auto|]); repeat (split; [discriminate|]);
    intros [] K; repeat (destruct K as [K | K]; [discriminate K|]); exact K.
Qed.

Lemma colour_name_spec (col : colour) (c : ascii) :
  In c (colour_name col) ->
  isspace c = false /\ c <> ":"%char /\ c <> ";"%char /\ c <> ","%char /\
  c <> " "%char.
Proof.
  destruct col; simpl; intros K;
    repeat (destruct K as [<- | K];
            [repeat split; solve [reflexivity | discriminate]|]);
    contradiction.
Qed.

(** A written number is a sign, if negative, and digits. *)
Lemma repr_int_cases (z : Z) :
  exists d, d <> Decimal.Nil /\
    ((repr_int z = str (NilEmpty.string_of_uint d) /\
      z = Z.of_N (Pos.of_uint d)) \/
     (repr_int z = "-"%char :: str (NilEmpty.string_of_uint d) /\
      z = - Z.of_N (Pos.of_uint d))).
Proof.
  destruct z as [|p|p].
  - exists (Decimal.D0 Decimal.Nil). split; [discriminate|]. left.
    split; reflexivity.
  - exists (Pos.to_uint p). split; [apply Unsigned.to_uint_nonnil|]. left.
    unfold repr_int. cbn [Z.to_int NilZero.string_of_int].
    pose proof (Unsigned.to_uint_nonnil p) as Hn.
    rewrite Unsigned.of_to. split; [|reflexivity].
    destruct (Pos.to_uint p); [congruence | reflexivity ..].
  - exists (Pos.to_uint p). split; [apply Unsigned.to_uint_nonnil|]. right.
    unfold repr_int. cbn [Z.to_int NilZero.string_of_int].
    pose proof (Unsigned.to_uint_nonnil p) as Hn.
    rewrite Unsigned.of_to. split; [|reflexivity].
    destruct (Pos.to_uint p); [congruence | reflexivity ..].
Qed.

Lemma uint_chars_nonempty (d : Decimal.uint) :
  d <> Decimal.Nil ->
  exists c r, str (NilEmpty.string_of_uint d) = c :: r /\ isdigit c = true.
Proof.
  destruct d; intros H; [congruence | ..]; simpl; eexists; eexists;
    split; reflexivity.
Qed.

Lemma repr_int_plain (z : Z) : Forall (fun c => plain c = true) (repr_int z).
Proof.
  destruct (repr_int_cases z) as (d & _ & [[-> _] | [-> _]]).
  - eapply Forall_impl; [|apply uint_chars_digits].
    intros c Hc. apply isdigit_plain. exact Hc.
  - constructor; [reflexivity|].
    eapply Forall_impl; [|apply uint_chars_digits].
    intros c Hc. apply isdigit_plain. exact Hc.
Qed.

Lemma repr_int_no_space (z : Z) : ~ In " "%char (repr_int z).
Proof.
  destruct (repr_int_cases z) as (d & _ & [[-> _] | [-> _]]);
    pose proof (uint_chars_digits d) as H; rewrite Forall_forall in H.
  - intros K. specialize (H _ K). discriminate H.
  - intros [K | K]; [discriminate K|]. specialize (H _ K). discriminate H.
Qed.

(** *** The digits of a number and its size *)

Lemma of_uint_nzhead (d : Decimal.uint) :
  Pos.of_uint (Decimal.nzhead d) = Pos.of_uint d.
Proof. induction d; simpl; auto. Qed.

Lemma to_uint_nzhead (p : positive) :
  Decimal.nzhead (Pos.to_uint p) = Pos.to_uint p.
Proof.
  pose proof (Unsigned.of_to p) as Hp. rewrite <- of_uint_nzhead in Hp.
  assert (Hu : Decimal.unorm (Pos.to_uint p) = Decimal.nzhead (Pos.to_uint p)).
  { unfold Decimal.unorm. destruct (Decimal.nzhead (Pos.to_uint p));
      [discriminate Hp | reflexivity ..]. }
  destruct (Unsigned.to_uint_pos_surj (Pos.to_uint p)) as [q Hq].
  - rewrite Hu. intros E. rewrite E in Hp. discriminate Hp.
  - rewrite Hu in Hq. rewrite <- Hq in Hp. rewrite Unsigned.of_to in Hp.
    injection Hp as ->. symmetry. exact Hq.
Qed.

Lemma of_uint_acc_bounds (l : Decimal.uint) (acc : positive) :
  Z.pos acc * 10 ^ Z.of_nat (Decimal.nb_digits l)
    <= Z.pos (Pos.of_uint_acc l acc)
    < (Z.pos acc + 1) * 10 ^ Z.of_nat (Decimal.nb_digits l).
Proof.
  revert acc. induction l; intros acc;
    cbn [Pos.of_uint_acc Decimal.nb_digits];
    [change (Z.of_nat 0) with 0; rewrite Z.pow_0_r; lia | ..];
    rewrite Nat2Z.inj_succ, Z.pow_succ_r by lia;
    match goal with
    | |- _ <= Z.pos (Pos.of_uint_acc _ ?a) < _ => specialize (IHl a)
    end;
    assert (0 < 10 ^ Z.of_nat (Decimal.nb_digits l))
      by (apply Z.pow_pos_nonneg; lia);
    set (P := 10 ^ Z.of_nat (Decimal.nb_digits l)) in *; nia.
Qed.

Lemma to_uint_size (p : positive) :
  10 ^ (Z.of_nat (Decimal.nb_digits (Pos.to_uint p)) - 1) <= Z.pos p
    < 10 ^ Z.of_nat (Decimal.nb_digits (Pos.to_uint p)).
Proof.
  pose proof (to_uint_nzhead p) as Hz. pose proof (Unsigned.of_to p) as Hp.
  assert (B : forall l j, N.pos (Pos.of_uint_acc l j) = N.pos p ->
            (1 <= Z.pos j <= 9) ->
            10 ^ (Z.of_nat (S (Decimal.nb_digits l)) - 1) <= Z.pos p
              < 10 ^ Z.of_nat (S (Decimal.nb_digits l))).
  { intros l j E Hj. injection E as <-.
    pose proof (of_uint_acc_bounds l j) as H.
    assert (0 < 10 ^ Z.of_nat (Decimal.nb_digits l))
      by (apply Z.pow_pos_nonneg; lia).
    replace (Z.of_nat (S (Decimal.nb_digits l)) - 1)
      with (Z.of_nat (Decimal.nb_digits l)) by lia.
    rewrite Nat2Z.inj_succ, Z.pow_succ_r by lia.
    set (P := 10 ^ Z.of_nat (Decimal.nb_digits l)) in *. nia. }
  destruct (Pos.to_uint p) as [|l|l|l|l|l|l|l|l|l|l];
    cbn [Pos.of_uint Decimal.nb_digits] in Hp |- *.
  - discriminate Hp.
  - exfalso. cbn [Decimal.nzhead] in Hz.
    pose proof (DecimalFacts.nb_digits_nzhead l) as Hn. rewrite Hz in Hn.
    cbn [Decimal.nb_digits] in Hn. lia.
  - apply (B l 1%positive Hp). lia.
  - apply (B l 2%positive Hp). lia.
  - apply (B l 3%positive Hp). lia.
  - apply (B l 4%positive Hp). lia.
  - apply (B l 5%positive Hp). lia.
  - apply (B l 6%positive Hp). lia.
  - apply (B l 7%positive Hp). lia.
  - apply (B l 8%positive Hp). lia.
  - apply (B l 9%positive Hp). lia.
Qed.

Lemma uint_chars_count (d : Decimal.uint) :
  len (filter isdigit (str (NilEmpty.string_of_uint d)))
  = Z.of_nat (Decimal.nb_digits d).
Proof.
  unfold len. f_equal.
  induction d; cbn [NilEmpty.string_of_uint str list_ascii_of_string filter
    Decimal.nb_digits]; [reflexivity | ..];
    change (isdigit _) with true; cbv iota; cbn [List.length]; f_equal;
    exact IHd.
Qed.

Lemma repr_int_pos (p : positive) :
  repr_int (Z.pos p) = str (NilEmpty.string_of_uint (Pos.to_uint p)).
Proof.
  unfold repr_int. cbn [Z.to_int NilZero.string_of_int].
  pose proof (Unsigned.to_uint_nonnil p) as Hn.
  destruct (Pos.to_uint p); [congruence | reflexivity ..].
Qed.

Lemma repr_int_neg (p : positive) :
  repr_int (Z.neg p) = "-"%char :: str (NilEmpty.string_of_uint (Pos.to_uint p)).
Proof.
  unfold repr_int. cbn [Z.to_int NilZero.string_of_int].
  pose proof (Unsigned.to_uint_nonnil p) as Hn.
  destruct (Pos.to_uint p); [congruence | reflexivity ..].
Qed.

Lemma digits_short (p : positive) :
  Z.pos p < 10 ^ max_str_digits <->
  Z.of_nat (Decimal.nb_digits (Pos.to_uint p)) <= max_str_digits.
Proof.
  pose proof (to_uint_size p) as [Hlo Hhi].
  assert (Hm : 0 <= max_str_digits) by discriminate.
  set (n := Z.of_nat (Decimal.nb_digits (Pos.to_uint p))) in *.
  assert (Hn : 0 <= n) by (subst n; lia).
  split.
  - intros H.
    destruct (Z.le_gt_cases n max_str_digits) as [|G]; [assumption|].
    exfalso.
    assert (10 ^ max_str_digits <= 10 ^ (n - 1))
      by (apply Z.pow_le_mono_r; lia).
    lia.
  - intros H.
    assert (10 ^ n <= 10 ^ max_str_digits) by (apply Z.pow_le_mono_r; lia).
    lia.
Qed.

(** A number is short exactly when its writing has no more digits than
    the limit. *)
Lemma repr_int_digits (z : Z) :
  short z <-> len (filter isdigit (repr_int z)) <= max_str_digits.
Proof.
  unfold short. destruct z as [|p|p].
  - split; intros _; [discriminate|].
    apply Z.pow_pos_nonneg; [lia | discriminate].
  - rewrite repr_int_pos, uint_chars_count. apply digits_short.
  - rewrite repr_int_neg. cbn [filter].
    change (isdigit "-") with false. cbv iota.
    rewrite uint_chars_count. apply digits_short.
Qed.

Lemma repr_int_no_blank (z : Z) :
  strip_by int_space (repr_int z) = repr_int z.
Proof.
  apply strip_by_none.
  destruct (repr_int_cases z) as (d & _ & [[-> _] | [-> _]]).
  - eapply Forall_impl; [|apply uint_chars_digits].
    intros c Hc. apply isdigit_plain. exact Hc.
  - constructor; [reflexivity|].
    eapply Forall_impl; [|apply uint_chars_digits].
    intros c Hc. apply isdigit_plain. exact Hc.
Qed.

(** [int(str(z)) == z] for a short [z]. *)
Lemma int_repr_int (z : Z) : short z -> int (repr_int z) = Ok z.
Proof.
  intros Hz. unfold int. rewrite repr_int_no_blank. cbv zeta.
  apply repr_int_digits in Hz.
  destruct (Z.ltb_spec max_str_digits (len (filter isdigit (repr_int z))))
    as [Hlt | _]; [lia|]. clear Hz.
  destruct (repr_int_cases z) as (d & Hd & [[-> ->] | [-> ->]]).
  - transitivity (int_digits 0 false (str (NilEmpty.string_of_uint d))).
    + destruct d; [congruence | reflexivity ..].
    + rewrite int_digits_first by exact Hd. apply int_digits_uint.
  - rewrite int_digits_first by exact Hd. rewrite int_digits_uint.
    reflexivity.
Qed.

(** A number with more digits than the limit is refused. *)
Lemma int_repr_int_long (z : Z) :
  ~ short z -> int (repr_int z) = Raise ValueError.
Proof.
  intros Hz. unfold int. rewrite repr_int_no_blank. cbv zeta.
  destruct (Z.ltb_spec max_str_digits (len (filter isdigit (repr_int z))))
    as [_ | Hle]; [reflexivity|].
  exfalso. apply Hz, repr_int_digits. exact Hle.
Qed.

Lemma short_small (z : Z) : Z.abs z < 100 -> short z.
Proof.
  intros H. unfold short.
  assert (P : 10 ^ 2 <= 10 ^ max_str_digits)
    by (apply Z.pow_le_mono_r; [lia | discriminate]).
  change (10 ^ 2) with 100 in P. lia.
Qed.

Lemma repr_int_head (z : Z) :
  exists c r, repr_int z = c :: r /\ isspace c = false.
Proof.
  destruct (repr_int_cases z) as (d & Hd & [[-> _] | [-> _]]).
  - destruct (uint_chars_nonempty d Hd) as (c & r & -> & Hc).
    exists c, r. split; [reflexivity|].
    destruct c as [[] [] [] [] [] [] [] []]; vm_compute in Hc |- *;
      solve [reflexivity | discriminate Hc].
  - eexists. eexists. split; reflexivity.
Qed.

Lemma contains_skip (w a b : pystr) :
  w <> [] -> (forall c, In c a -> ~ In c w) ->
  contains w (a ++ b) = contains w b.
Proof.
  intros Hw. induction a as [|x a IH]; intros H; [reflexivity|].
  cbn [app contains]. rewrite IH by (intros c Hc; apply H; right; exact Hc).
  destruct w as [|y w]; [congruence|]. cbn [startswith].
  destruct (Ascii.eqb_spec y x) as [-> | _]; [|reflexivity].
  exfalso. apply (H x); left; reflexivity.
Qed.

(** *** Solid texts *)

Lemma strip_solid (pad s : pystr) :
  Forall (fun c => isspace c = true) pad -> solid s -> strip (pad ++ s) = s.
Proof.
  intros Hp [(c & r & -> & Hc) (r' & c' & E & Hc')].
  unfold strip. rewrite <- (app_nil_r (c :: r)) at 1.
  apply strip_by_around; [exact Hp | constructor | |].
  - intros x Hx. injection Hx as <-. exact Hc.
  - rewrite E, rev_app_distr. intros x Hx. injection Hx as <-. exact Hc'.
Qed.

Lemma solid_app (a b : pystr) :
  (exists c r, a = c :: r /\ isspace c = false) ->
  (exists r c, b = r ++ [c] /\ isspace c = false) ->
  solid (a ++ b).
Proof.
  intros (c & r & -> & Hc) (r' & c' & -> & Hc'). split.
  - exists c, (r ++ r' ++ [c']). split; [reflexivity | exact Hc].
  - exists ((c :: r) ++ r'), c'. split; [|exact Hc'].
    rewrite <- app_assoc. reflexivity.
Qed.

Lemma solid_join (sep : pystr) (ps : list pystr) :
  ps <> [] -> Forall solid ps -> solid (join sep ps).
Proof.
  induction ps as [|p ps IH]; intros Hne H; [congruence|].
  inversion H as [|? ? Hp Hps]. subst.
  destruct ps as [|q qs]; [exact Hp|].
  change (join sep (p :: q :: qs)) with (p ++ sep ++ join sep (q :: qs)).
  apply solid_app; [apply Hp|].
  destruct (IH ltac:(discriminate) Hps) as [_ (r & c & E & Hc)].
  exists (sep ++ r), c. rewrite E, app_assoc. split; [reflexivity | exact Hc].
Qed.

Lemma In_join (sep : pystr) (ps : list pystr) (c : ascii) :
  In c (join sep ps) -> In c sep \/ exists p, In p ps /\ In c p.
Proof.
  induction ps as [|p ps IH]; [intros []|].
  destruct ps as [|q qs].
  - intros H. right. exists p. split; [left; reflexivity | exact H].
  - change (join sep (p :: q :: qs)) with (p ++ sep ++ join sep (q :: qs)).
    intros H. apply in_app_or in H. destruct H as [H | H].
    + right. exists p. split; [left; reflexivity | exact H].
    + apply in_app_or in H. destruct H as [H | H]; [left; exact H|].
      destruct (IH H) as [K | (p' & Hp' & K)]; [left; exact K|].
      right. exists p'. split; [right; exact Hp' | exact K].
Qed.

(** Splitting a joined text gives the pieces back, each later one with
    the blank that follows the separator. *)
Lemma split_join (sep : ascii) (gap pad p : pystr) (ps : list pystr) :
  ~ In sep pad -> ~ In sep gap -> Forall (fun q => ~ In sep q) (p :: ps) ->
  split sep (pad ++ join (sep :: gap) (p :: ps)) =
  (pad ++ p) :: map (app gap) ps.
Proof.
  intros Hpad Hgap. revert pad p Hpad.
  induction ps as [|q qs IH]; intros pad p Hpad H.
  - cbn [join map]. apply split_no_sep. intros K. apply in_app_or in K.
    inversion H. tauto.
  - change (join (sep :: gap) (p :: q :: qs))
      with (p ++ (sep :: gap) ++ join (sep :: gap) (q :: qs)).
    inversion H as [|? ? Hp Hq]. subst.
    replace (pad ++ p ++ (sep :: gap) ++ join (sep :: gap) (q :: qs))
      with ((pad ++ p) ++ sep :: (gap ++ join (sep :: gap) (q :: qs)))
      by (rewrite <- app_assoc; reflexivity).
    rewrite split_app by (intros K; apply in_app_or in K; tauto).
    rewrite (IH gap q Hgap Hq). reflexivity.
Qed.

(** *** A written count *)

Lemma render_count_chars (h : handful) (c : ascii) :
  In c (render_count h) ->
  c <> ":"%char /\ c <> ";"%char /\ c <> ","%char.
Proof.
  unfold render_count. intros H. apply in_app_or in H.
  destruct H as [H | H].
  - pose proof (repr_int_plain (fst h)) as P. rewrite Forall_forall in P.
    specialize (P c H). apply plain_spec in P. tauto.
  - apply in_app_or in H. destruct H as [[<- | []] | H].
    + repeat split; discriminate.
    + apply colour_name_spec in H. tauto.
Qed.

Lemma colour_name_last (col : colour) :
  exists r c, colour_name col = r ++ [c] /\ isspace c = false.
Proof.
  destruct col.
  - exists (str "blu"), "e"%char. split; reflexivity.
  - exists (str "gree"), "n"%char. split; reflexivity.
  - exists (str "re"), "d"%char. split; reflexivity.
Qed.

Lemma solid_render_count (h : handful) : solid (render_count h).
Proof.
  unfold render_count. apply solid_app; [apply repr_int_head|].
  destruct (colour_name_last (snd h)) as (r & c & -> & Hc).
  exists (str " " ++ r), c. rewrite app_assoc. split; [reflexivity | exact Hc].
Qed.

Lemma colour_of_rendered (pad : pystr) (h : handful) :
  Forall (fun c => c = " "%char) pad ->
  colour_of (pad ++ render_count h) = Some (snd h).
Proof.
  intros Hp.
  assert (E : forall w,
            (exists col, w = colour_name col) ->
            contains w (pad ++ render_count h)
            = contains w (colour_name (snd h))).
  { intros w [col ->]. unfold render_count.
    replace (pad ++ repr_int (fst h) ++ str " " ++ colour_name (snd h))
      with ((pad ++ repr_int (fst h) ++ str " ") ++ colour_name (snd h))
      by (rewrite <- !app_assoc; reflexivity).
    apply contains_skip; [destruct col; discriminate|].
    intros c Hc. apply plain_spec.
    apply in_app_or in Hc. destruct Hc as [Hc | Hc].
    - rewrite Forall_forall in Hp. rewrite (Hp c Hc). reflexivity.
    - apply in_app_or in Hc. destruct Hc as [Hc | [<- | []]].
      + pose proof (repr_int_plain (fst h)) as P.
        rewrite Forall_forall in P. apply P. exact Hc.
      + reflexivity. }
  unfold colour_of.
  rewrite (E (str "blue") (ex_intro _ Blue eq_refl)),
    (E (str "green") (ex_intro _ Green eq_refl)),
    (E (str "red") (ex_intro _ Red eq_refl)).
  destruct (snd h); reflexivity.
Qed.

Lemma token_count_rendered (pad : pystr) (h : handful) :
  Forall (fun c => c = " "%char) pad -> short (fst h) ->
  token_count (pad ++ render_count h) = Ok (fst h).
Proof.
  intros Hp Hs. unfold token_count.
  rewrite strip_solid; [| |apply solid_render_count].
  - unfold render_count. cbn [str list_ascii_of_string app].
    rewrite split_app by apply repr_int_no_space.
    rewrite getitem_first. cbn [bind]. apply int_repr_int. exact Hs.
  - eapply Forall_impl; [|exact Hp]. intros c ->. reflexivity.
Qed.

(** *** A written draw *)

Lemma collection_loop_rendered (tokens : list pystr) (d : list handful)
    (g : DiceGroup) :
  Forall2 (fun t h => exists pad, Forall (fun c => c = " "%char) pad /\
                                  t = pad ++ render_count h) tokens d ->
  Forall (fun h => short (fst h)) d ->
  collection_loop tokens (counts_dict g) =
  Ok (counts_dict (fold_left (fun g h => put (snd h) (fst h) g) d g)).
Proof.
  intros H. revert g. induction H as [|t h ts hs (pad & Hp & ->) _ IH];
    intros g Hs; cbn [collection_loop fold_left]; [reflexivity|].
  apply Forall_cons_iff in Hs. destruct Hs as [Hh Hs].
  rewrite colour_loop_eq, colour_of_rendered by exact Hp.
  rewrite token_count_rendered by assumption. cbn [bind]. apply IH, Hs.
Qed.

Lemma tokens_rendered (pad : pystr) (d : list handful) :
  Forall (fun c => c = " "%char) pad -> d <> [] ->
  Forall2 (fun t h => exists pad, Forall (fun c => c = " "%char) pad /\
                                  t = pad ++ render_count h)
          (tokens_of (pad ++ render_draw d)) d.
Proof.
  intros Hp Hd. unfold tokens_of, render_draw.
  rewrite strip_solid.
  - destruct d as [|h hs]; [congruence|]. cbn [map].
    change (str ", ") with (","%char :: str " ").
    pose proof (split_join "," (str " ") [] (render_count h)
                  (map render_count hs)) as E.
    change ([] ++ join (","%char :: str " ")
                       (render_count h :: map render_count hs))
      with (join (","%char :: str " ")
                 (render_count h :: map render_count hs)) in E.
    rewrite E.
    + constructor; [exists []; split; [constructor | reflexivity]|].
      clear. induction hs as [|h' hs IH]; cbn [map]; constructor; [|exact IH].
      exists (str " "). split; [repeat constructor | reflexivity].
    + intros [].
    + simpl. intros [K | []]. discriminate K.
    + apply Forall_forall. intros q Hq K.
      change (render_count h :: map render_count hs)
        with (map render_count (h :: hs)) in Hq.
      apply in_map_iff in Hq. destruct Hq as (h' & <- & _).
      apply render_count_chars in K. tauto.
  - eapply Forall_impl; [|exact Hp]. intros c ->. reflexivity.
  - apply solid_join; [destruct d; [congruence | discriminate]|].
    apply Forall_forall. intros q Hq. apply in_map_iff in Hq.
    destruct Hq as (h' & <- & _). apply solid_render_count.
Qed.

Lemma parse_game_rendered (pad : pystr) (d : list handful) :
  Forall (fun c => c = " "%char) pad -> d <> [] ->
  Forall (fun h => short (fst h)) d ->
  parse_game (pad ++ render_draw d) = Ok (group_of d).
Proof.
  intros Hp Hd Hs. apply parse_game_counts.
  apply collection_loop_rendered; [|exact Hs].
  apply tokens_rendered; assumption.
Qed.

Lemma render_draw_chars (d : list handful) (c : ascii) :
  In c (render_draw d) -> c <> ":"%char /\ c <> ";"%char.
Proof.
  unfold render_draw. intros H. apply In_join in H.
  destruct H as [H | (p & Hp & H)].
  - simpl in H. destruct H as [<- | [<- | []]]; split; discriminate.
  - apply in_map_iff in Hp. destruct Hp as (h & <- & _).
    apply render_count_chars in H. tauto.
Qed.

Lemma solid_render_draw (d : list handful) : d <> [] -> solid (render_draw d).
Proof.
  intros Hd. apply solid_join; [destruct d; [congruence | discriminate]|].
  apply Forall_forall. intros q Hq. apply in_map_iff in Hq.
  destruct Hq as (h & <- & _). apply solid_render_count.
Qed.

(** *** A written game *)

Lemma games_loop_rendered (ds : list (list handful)) (pieces : list pystr) :
  Forall2 (fun t d => d <> [] /\
             exists pad, Forall (fun c => c = " "%char) pad /\
                         t = pad ++ render_draw d) pieces ds ->
  Forall (Forall (fun h => short (fst h))) ds ->
  games_loop pieces = Iterable (map group_of ds) None.
Proof.
  intros H. induction H as [|t d ts ds' (Hd & pad & Hp & ->) _ IH];
    intros Hs; cbn [games_loop map]; [reflexivity|].
  apply Forall_cons_iff in Hs. destruct Hs as [Hh Hs].
  rewrite parse_game_rendered by assumption. rewrite IH by exact Hs.
  reflexivity.
Qed.

Lemma render_game_body (ds : list (list handful)) :
  ds <> [] -> Forall (fun d => d <> []) ds ->
  Forall (Forall (fun h => short (fst h))) ds ->
  games_loop (split ";" (strip (str " " ++ join (str "; ") (map render_draw ds))))
  = Iterable (map group_of ds) None.
Proof.
  intros Hne Hall Hshort.
  assert (Hsolid : Forall solid (map render_draw ds)).
  { apply Forall_forall. intros q Hq. apply in_map_iff in Hq.
    destruct Hq as (d & <- & Hd). apply solid_render_draw.
    rewrite Forall_forall in Hall. apply Hall. exact Hd. }
  rewrite strip_solid;
    [|repeat constructor
     |apply solid_join; [destruct ds; [congruence | discriminate] | exact Hsolid]].
  apply games_loop_rendered; [|exact Hshort]. clear Hshort.
  destruct ds as [|d ds]; [congruence|]. cbn [map].
  change (str "; ") with (";"%char :: str " ").
  pose proof (split_join ";" (str " ") [] (render_draw d)
                (map render_draw ds)) as E.
  change ([] ++ join (";"%char :: str " ")
                     (render_draw d :: map render_draw ds))
    with (join (";"%char :: str " ")
               (render_draw d :: map render_draw ds)) in E.
  rewrite E.
  - inversion Hall as [|? ? Hd Hds]. subst.
    constructor;
      [split; [exact Hd | exists []; split; [constructor | reflexivity]]|].
    clear - Hds. induction Hds as [|d' ds Hd' _ IH]; cbn [map];
      constructor; [|exact IH].
    split; [exact Hd'|]. exists (str " ").
    split; [repeat constructor | reflexivity].
  - intros [].
  - simpl. intros [K | []]. discriminate K.
  - apply Forall_forall. intros q Hq K.
    change (render_draw d :: map render_draw ds)
      with (map render_draw (d :: ds)) in Hq.
    apply in_map_iff in Hq. destruct Hq as (d' & <- & _).
    apply render_draw_chars in K. tauto.
Qed.

Lemma render_game_split (g : Z * list (list handful)) :
  render_game g =
  (str "Game " ++ repr_int (fst g)) ++ ":"%char ::
  (str " " ++ join (str "; ") (map render_draw (snd g))) ++ [].
Proof.
  unfold render_game. rewrite app_nil_r, <- app_assoc. reflexivity.
Qed.

Lemma render_game_label (n : Z) : ~ In ":"%char (str "Game " ++ repr_int n).
Proof.
  intros K. apply in_app_or in K. destruct K as [K | K].
  - simpl in K. repeat (destruct K as [K | K]; [discriminate K|]). exact K.
  - pose proof (repr_int_plain n) as P. rewrite Forall_forall in P.
    specialize (P _ K). apply plain_spec in P. tauto.
Qed.

Lemma render_game_no_colon (ds : list (list handful)) :
  ~ In ":"%char (str " " ++ join (str "; ") (map render_draw ds)).
Proof.
  intros [K | K]; [discriminate K|]. apply In_join in K.
  destruct K as [K | (p & Hp & K)].
  - simpl in K. destruct K as [K | [K | []]]; discriminate K.
  - apply in_map_iff in Hp. destruct Hp as (d & <- & _).
    apply render_draw_chars in K. tauto.
Qed.

Lemma parse_game_string_rendered (g : Z * list (list handful)) :
  well_formed g ->
  parse_game_string (render_game g) = Iterable (map group_of (snd g)) None.
Proof.
  intros (Hne & Hall & _ & Hshort). rewrite render_game_split.
  rewrite parse_game_string_body;
    [apply render_game_body; assumption
    |apply render_game_label | apply render_game_no_colon | left; reflexivity].
Qed.

Lemma get_game_number_rendered (n : Z) (rest : pystr) :
  short n ->
  get_game_number (str "Game " ++ repr_int n ++ ":"%char :: rest) = Ok n.
Proof.
  intros Hn. unfold get_game_number.
  rewrite app_assoc, split_app by apply render_game_label.
  rewrite getitem_first. cbn [bind].
  change (str "Game " ++ repr_int n)
    with (str "Game" ++ " "%char :: repr_int n).
  rewrite split_app.
  - rewrite split_no_sep by apply repr_int_no_space.
    rewrite getitem_second. cbn [bind]. apply int_repr_int. exact Hn.
  - simpl. intros K. repeat (destruct K as [K | K]; [discriminate K|]).
    exact K.
Qed.

Lemma get_game_number_long (n : Z) (rest : pystr) :
  ~ short n ->
  get_game_number (str "Game " ++ repr_int n ++ ":"%char :: rest)
  = Raise ValueError.
Proof.
  intros Hn. unfold get_game_number.
  rewrite app_assoc, split_app by apply render_game_label.
  rewrite getitem_first. cbn [bind].
  change (str "Game " ++ repr_int n)
    with (str "Game" ++ " "%char :: repr_int n).
  rewrite split_app.
  - rewrite split_no_sep by apply repr_int_no_space.
    rewrite getitem_second. cbn [bind]. rewrite int_repr_int_long by exact Hn.
    reflexivity.
  - simpl. intros K. repeat (destruct K as [K | K]; [discriminate K|]).
    exact K.
Qed.

Lemma solid_render_game (g : Z * list (list handful)) :
  well_formed g -> solid (render_game g).
Proof.
  intros (Hne & Hall & _). unfold render_game.
  apply solid_app; [exists "G"%char, (str "ame "); split; reflexivity|].
  assert (Hs : solid (join (str "; ") (map render_draw (snd g)))).
  { apply solid_join; [destruct (snd g); [congruence | discriminate]|].
    apply Forall_forall. intros q Hq. apply in_map_iff in Hq.
    destruct Hq as (d & <- & Hd). apply solid_render_draw.
    rewrite Forall_forall in Hall. apply Hall. exact Hd. }
  destruct Hs as [_ (r & c & E & Hc)].
  exists (repr_int (fst g) ++ str ": " ++ r), c.
  rewrite E, <- !app_assoc. split; [reflexivity | exact Hc].
Qed.

End RenderFacts.

(* ================================================================== *)
(** ** Whole files of written games *)
(* ================================================================== *)

Section FileFacts.

Lemma strip_written (line : pystr) (g : Z * list (list handful)) :
  written line g -> strip line = render_game g.
Proof.
  intros [Hw (pad & trail & Hp & Ht & ->)].
  destruct (solid_render_game g Hw) as [(c & r & E & Hc) (r' & c' & E' & Hc')].
  unfold strip. apply strip_by_around; [exact Hp | exact Ht | |].
  - rewrite E. intros x Hx. injection Hx as <-. exact Hc.
  - rewrite E', rev_app_distr. intros x Hx. injection Hx as <-. exact Hc'.
Qed.

Lemma strip_blank (line : pystr) :
  Forall (fun c => isspace c = true) line -> strip line = [].
Proof.
  intros H. unfold strip. rewrite <- (app_nil_r line).
  change (line ++ []) with (line ++ [] ++ []).
  apply strip_by_around; [exact H | constructor | discriminate | discriminate].
Qed.

Lemma render_game_number (g : Z * list (list handful)) :
  short (fst g) -> get_game_number (render_game g) = Ok (fst g).
Proof.
  exact (get_game_number_rendered (fst g)
           (str " " ++ join (str "; ") (map render_draw (snd g)))).
Qed.

Lemma forallb_map_eq {A B : Type} (f : A -> B) (p : B -> bool) (l : list A) :
  forallb p (map f l) = forallb (fun x => p (f x)) l.
Proof.
  induction l as [|x l IH]; simpl; [reflexivity | rewrite IH; reflexivity].
Qed.

Lemma validate_games_file_written (lines : list pystr)
    (games : list (Z * list (list handful))) (more : list pystr)
    (bag : DiceGroup) :
  Forall2 written lines games ->
  validate_games_file (lines ++ more) bag =
  Iterable (map (fun g => (fst g, game_fits bag g)) games
            ++ yielded (validate_games_file more bag))
           (raised (validate_games_file more bag)).
Proof.
  intros H. induction H as [|line g lines games Hw _ IH].
  - simpl. destruct (validate_games_file more bag). reflexivity.
  - cbn [app validate_games_file map].
    rewrite (strip_written line g Hw), render_game_number by apply Hw.
    rewrite parse_game_string_rendered by apply Hw.
    unfold validate_game. cbn [yielded raised].
    rewrite validate_loop_eq, IH. cbn [yielded raised].
    unfold game_fits. rewrite forallb_map_eq. reflexivity.
Qed.

Lemma total_power_loop_written (lines : list pystr)
    (games : list (Z * list (list handful))) (more : list pystr) (t : Z) :
  Forall2 written lines games ->
  total_power_loop (lines ++ more) t =
  total_power_loop more (t + sum_Z (map game_power games)).
Proof.
  intros H. revert t. induction H as [|line g lines games Hw _ IH]; intros t.
  - simpl. f_equal. lia.
  - cbn [app total_power_loop map].
    rewrite (strip_written line g Hw).
    rewrite parse_game_string_rendered by apply Hw.
    change (Iterable (map group_of (snd g)) None)
      with (iter (map group_of (snd g))).
    rewrite max_dice_group_eq. cbn [bind]. rewrite IH.
    f_equal. unfold sum_Z, game_power. cbn [fold_right]. lia.
Qed.

Lemma valid_total_loop_sum (pairs : list (Z * bool)) (t : Z) :
  valid_total_loop pairs None t =
  Ok (t + sum_Z (map (fun p : Z * bool => if snd p then fst p else 0)
                      pairs)).
Proof.
  revert t. induction pairs as [|[n b] pairs IH]; intros t;
    cbn [valid_total_loop map].
  - simpl. f_equal. lia.
  - rewrite IH. f_equal. unfold sum_Z. cbn [fold_right fst snd]. lia.
Qed.

Lemma valid_total_loop_raise (pairs : list (Z * bool)) (e : exn) (t : Z) :
  valid_total_loop pairs (Some e) t = Raise e.
Proof.
  revert t. induction pairs as [|[n b] pairs IH]; intros t;
    cbn [valid_total_loop]; [reflexivity | apply IH].
Qed.

Lemma fold_put_other (d : list handful) (g : DiceGroup) (c : colour) :
  (forall h, In h d -> snd h <> c) ->
  count c (fold_left (fun g h => put (snd h) (fst h) g) d g) = count c g.
Proof.
  revert g. induction d as [|h d IH]; intros g H; [reflexivity|].
  cbn [fold_left]. rewrite IH by (intros h' Hh'; apply H; right; exact Hh').
  apply count_put_other. intros E. apply (H h); [left; reflexivity|].
  symmetry. exact E.
Qed.

Lemma group_of_app (d1 d2 : list handful) (g : DiceGroup) (c : colour) :
  (forall h, In h d2 -> snd h <> c) ->
  count c (fold_left (fun g h => put (snd h) (fst h) g) (d1 ++ d2) g) =
  count c (fold_left (fun g h => put (snd h) (fst h) g) d1 g).
Proof.
  intros H. rewrite fold_left_app. apply fold_put_other. exact H.
Qed.

End FileFacts.

Ltac short_numbers :=
  repeat (apply Forall_nil || apply Forall_cons);
  apply short_small; vm_compute; reflexivity.

Ltac well_formed_game :=
  split; [discriminate|];
  split; [repeat constructor; discriminate|];
  split; short_numbers.

Ltac written_line :=
  split;
  [well_formed_game
  |exists [], [newline];
   split; [constructor|]; split; [repeat constructor|];
   vm_compute; reflexivity].

(** X10. Reading back a written game: on a line "Game n: draw; draw; ..."
    whose draws are counts "k colour" joined by ", ", at least one draw
    and one count per draw, the number and every count written with at
    most 4300 digits (the most that [int] reads: below 10^4300 in absolute
    value), [parse_game_string] yields exactly one group per draw, in
    order, without raising. In each group a colour the draw does not name
    is 0 and a named colour has the count written last for it, in whatever
    order the colours come. *)
Theorem parse_game_string_round_trip (g : Z * list (list handful))
    (Hg : well_formed g) :
  parse_game_string (render_game g) = Iterable (map group_of (snd g)) None /\
  (forall d c, (forall h, In h d -> snd h <> c) -> count c (group_of d) = 0) /\
  (forall d1 n c d2, (forall h, In h d2 -> snd h <> c) ->
     count c (group_of (d1 ++ (n, c) :: d2)) = n).
Proof.
  split; [apply parse_game_string_rendered; exact Hg|]. split.
  - intros d c H. unfold group_of. rewrite fold_put_other by exact H.
    destruct c; reflexivity.
  - intros d1 n c d2 H. unfold group_of.
    change (d1 ++ (n, c) :: d2) with (d1 ++ [(n, c)] ++ d2).
    rewrite app_assoc, group_of_app by exact H.
    rewrite fold_left_app. cbn [fold_left fst snd]. apply count_put_same.
Qed.

Lemma parse_game_string_round_trip_witness :
  render_game (7, [[(3, Red); (5, Blue)]; [(2, Green)]]) =
    str "Game 7: 3 red, 5 blue; 2 green" /\
  parse_game_string (render_game (7, [[(3, Red); (5, Blue)]; [(2, Green)]])) =
    Iterable [mkDiceGroup 5 0 3; mkDiceGroup 0 2 0] None.
Proof.
  split; [vm_compute; reflexivity|].
  assert (W : well_formed (7, [[(3, Red); (5, Blue)]; [(2, Green)]])).
  { well_formed_game. }
  exact (proj1 (parse_game_string_round_trip _ W)).
Defined.

(** X11. [get_game_number] reads back the number of a line that starts
    "Game n:", whatever follows the colon, for every integer [n] written
    with at most 4300 digits (below 10^4300 in absolute value), negative
    ones included; on a number with more digits it raises [ValueError],
    as [int] does. *)
Theorem get_game_number_round_trip (n : Z) (rest : pystr) :
  get_game_number (str "Game " ++ repr_int n ++ ":"%char :: rest) =
  if Z.abs n <? 10 ^ max_str_digits then Ok n else Raise ValueError.
Proof.
  destruct (Z.ltb_spec (Z.abs n) (10 ^ max_str_digits)) as [Hn | Hn].
  - apply get_game_number_rendered. exact Hn.
  - apply get_game_number_long. unfold short. lia.
Qed.

(** X12. On a file of written games (number and counts of at most 4300
    digits each) [validate_games_file] yields, for each line in order, the game's number paired with whether every draw
    of the game is within the bag in every colour, and does not raise;
    the main block's total over it is the sum of the numbers of the games
    that are within the bag. *)
Theorem validate_games_file_written_games (lines : list pystr)
    (games : list (Z * list (list handful))) (bag : DiceGroup)
    (Hlines : Forall2 written lines games) :
  validate_games_file lines bag =
    Iterable (map (fun g => (fst g, game_fits bag g)) games) None /\
  valid_total lines bag =
    Ok (sum_Z (map (fun g => if game_fits bag g then fst g else 0) games)) /\
  (forall g, game_fits bag g = true <->
             forall d, In d (snd g) -> fits_within (group_of d) bag).
Proof.
  assert (E : validate_games_file lines bag =
              Iterable (map (fun g => (fst g, game_fits bag g)) games) None).
  { rewrite <- (app_nil_r lines).
    rewrite (validate_games_file_written lines games [] bag Hlines).
    cbn [validate_games_file yielded raised]. rewrite app_nil_r.
    reflexivity. }
  split; [exact E|]. split.
  - unfold valid_total. rewrite E. cbn [yielded raised].
    rewrite valid_total_loop_sum, map_map. reflexivity.
  - intros g. unfold game_fits. rewrite forallb_forall.
    split; intros H d Hd; apply fitsb_fits, H, Hd.
Qed.

Lemma validate_games_file_written_games_witness :
  validate_games_file
    [str "Game 1: 3 blue, 4 red; 2 green" ++ [newline];
     str "Game 2: 15 blue" ++ [newline]] (mkDiceGroup 14 13 12) =
    Iterable [(1, true); (2, false)] None /\
  valid_total
    [str "Game 1: 3 blue, 4 red; 2 green" ++ [newline];
     str "Game 2: 15 blue" ++ [newline]] (mkDiceGroup 14 13 12) = Ok 1.
Proof.
  assert (W : Forall2 written
            [str "Game 1: 3 blue, 4 red; 2 green" ++ [newline];
             str "Game 2: 15 blue" ++ [newline]]
            [(1, [[(3, Blue); (4, Red)]; [(2, Green)]]);
             (2, [[(15, Blue)]])]).
  { constructor; [written_line|]. constructor; [written_line|].
    constructor. }
  destruct (validate_games_file_written_games _ _ (mkDiceGroup 14 13 12) W)
    as (H1 & H2 & _).
  split; [exact H1 | exact H2].
Defined.

(** X13. On a file of written games (number and counts of at most 4300
    digits each) [total_power_games_file] returns the sum, over the games, of the product of the largest blue, the largest
    green and the largest red count among the game's draws (0 standing
    for a colour with no positive count). *)
Theorem total_power_written_games (lines : list pystr)
    (games : list (Z * list (list handful)))
    (Hlines : Forall2 written lines games) :
  total_power_games_file lines = Ok (sum_Z (map game_power games)).
Proof.
  unfold total_power_games_file. rewrite <- (app_nil_r lines).
  rewrite (total_power_loop_written lines games [] 0 Hlines).
  reflexivity.
Qed.

Lemma total_power_written_games_witness :
  total_power_games_file
    [str "Game 1: 3 blue, 4 red; 1 red, 2 green, 6 blue" ++ [newline];
     str "Game 2: 15 blue, 1 green" ++ [newline]] = Ok 48.
Proof.
  apply (total_power_written_games
           [str "Game 1: 3 blue, 4 red; 1 red, 2 green, 6 blue" ++ [newline];
            str "Game 2: 15 blue, 1 green" ++ [newline]]
           [(1, [[(3, Blue); (4, Red)]; [(1, Red); (2, Green); (6, Blue)]]);
            (2, [[(15, Blue); (1, Green)]])]).
  constructor; [written_line|]. constructor; [written_line|]. constructor.
Defined.

(** X14. A blank line after written games (number and counts of at most
    4300 digits each; an empty last line, say) stops both passes with [IndexError]: [validate_games_file] has by
    then yielded the pairs of the lines before it, and the totals of
    [total_power_games_file] and of the main block are lost. *)
Theorem blank_line_raises (lines : list pystr)
    (games : list (Z * list (list handful))) (blank : pystr)
    (rest : list pystr) (bag : DiceGroup)
    (Hlines : Forall2 written lines games)
    (Hblank : Forall (fun c => isspace c = true) blank) :
  validate_games_file (lines ++ blank :: rest) bag =
    Iterable (map (fun g => (fst g, game_fits bag g)) games)
             (Some IndexError) /\
  valid_total (lines ++ blank :: rest) bag = Raise IndexError /\
  total_power_games_file (lines ++ blank :: rest) = Raise IndexError.
Proof.
  assert (E : validate_games_file (lines ++ blank :: rest) bag =
              Iterable (map (fun g => (fst g, game_fits bag g)) games)
                       (Some IndexError)).
  { rewrite (validate_games_file_written lines games _ bag Hlines).
    cbn [validate_games_file]. rewrite (strip_blank blank Hblank).
    cbn. rewrite app_nil_r. reflexivity. }
  split; [exact E|]. split.
  - unfold valid_total. rewrite E. cbn [yielded raised].
    apply valid_total_loop_raise.
  - unfold total_power_games_file.
    rewrite (total_power_loop_written lines games _ 0 Hlines).
    cbn [total_power_loop]. rewrite (strip_blank blank Hblank). reflexivity.
Qed.

Lemma blank_line_raises_witness :
  validate_games_file [str "Game 1: 3 blue" ++ [newline]; [newline]]
                      (mkDiceGroup 14 13 12) =
    Iterable [(1, true)] (Some IndexError) /\
  valid_total [str "Game 1: 3 blue" ++ [newline]; [newline]]
              (mkDiceGroup 14 13 12) = Raise IndexError /\
  total_power_games_file [str "Game 1: 3 blue" ++ [newline]; [newline]]
    = Raise IndexError.
Proof.
  apply (blank_line_raises [str "Game 1: 3 blue" ++ [newline]]
           [(1, [[(3, Blue)]])] [newline] [] (mkDiceGroup 14 13 12)).
  - constructor; [written_line | constructor].
  - repeat constructor.
Defined.

(* ================================================================== *)
(** ** The decoder finds the first and the last token *)
(* ================================================================== *)

Section TokenFacts.

Lemma app_inv_len {A : Type} (a a' x y : list A) :
  a ++ x = a' ++ y -> List.length a = List.length a' -> a = a' /\ x = y.
Proof.
  revert a'. induction a as [|c a IH]; intros [|c' a'] E L;
    try discriminate L.
  - split; [reflexivity | exact E].
  - simpl in E, L. injection E as -> E. injection L as L.
    destruct (IH a' E L) as [-> ->]. split; reflexivity.
Qed.

Lemma app_inv_len_tail {A : Type} (a a' x y : list A) :
  a ++ x = a' ++ y -> List.length x = List.length y -> a = a' /\ x = y.
Proof.
  intros E L. apply app_inv_len; [exact E|].
  apply (f_equal (@List.length A)) in E. rewrite !length_app in E. lia.
Qed.

Lemma len_nil {A : Type} (a : list A) : len a <= 0 -> a = [].
Proof.
  destruct a as [|x a]; [reflexivity|]. rewrite len_cons.
  pose proof (len_nonneg a). lia.
Qed.

Lemma getitem_split_front {A : Type} (s : list A) (i : Z) (c : A) :
  0 <= i -> getitem s i = Ok c ->
  exists a b, s = a ++ c :: b /\ len a = i.
Proof.
  intros Hi. unfold getitem.
  destruct (Z.ltb_spec i 0); [lia|].
  destruct (_ || _); [discriminate|].
  destruct (nth_error s (Z.to_nat i)) as [x|] eqn:E; [|discriminate].
  intros Hx. apply Ok_inj in Hx. subst x.
  apply nth_error_split in E. destruct E as (a & b & -> & L).
  exists a, b. split; [reflexivity|]. unfold len. lia.
Qed.

Lemma getitem_split_back {A : Type} (s : list A) (i : Z) (c : A) :
  0 <= i < len s -> getitem s (- (i + 1)) = Ok c ->
  exists a b, s = a ++ c :: b /\ len b = i.
Proof.
  intros Hi. unfold getitem.
  destruct (Z.ltb_spec (- (i + 1)) 0); [|lia].
  destruct (_ || _); [discriminate|].
  destruct (nth_error s _) as [x|] eqn:E; [|discriminate].
  intros Hx. apply Ok_inj in Hx. subst x.
  apply nth_error_split in E. destruct E as (a & b & -> & L).
  exists a, b. split; [reflexivity|].
  rewrite len_app, len_cons in *. unfold len in *. lia.
Qed.

(** *** The nine words *)

Lemma word_no_digit (k : Z) (w : pystr) :
  In (k, w) (enumerate word_numbers) -> Forall (fun c => isdigit c = false) w.
Proof.
  rewrite enumerate_words. simpl. intros H.
  repeat (destruct H as [H | H];
          [injection H as <- <-; repeat constructor|]).
  contradiction.
Qed.

Lemma word_value (k : Z) (w : pystr) :
  In (k, w) (enumerate word_numbers) -> 1 <= k + 1 <= 9.
Proof. intros H. apply enumerate_words_In in H. lia. Qed.

(** No word is the start of another. *)
Lemma word_prefix_unique (k k' : Z) (w w' x y : pystr) :
  In (k, w) (enumerate word_numbers) ->
  In (k', w') (enumerate word_numbers) ->
  w ++ x = w' ++ y -> k = k'.
Proof.
  rewrite enumerate_words. simpl. intros H H' E.
  repeat (destruct H as [H | H]; [injection H as <- <-|]);
    try contradiction;
    repeat (destruct H' as [H' | H']; [injection H' as <- <-|]);
    try contradiction;
    first [reflexivity | exfalso; cbn in E; congruence].
Qed.

(** No word is the end of another. *)
Lemma word_suffix_unique (k k' : Z) (w w' x y : pystr) :
  In (k, w) (enumerate word_numbers) ->
  In (k', w') (enumerate word_numbers) ->
  x ++ w = y ++ w' -> k = k'.
Proof.
  intros H H' E. apply (f_equal (@rev ascii)) in E.
  rewrite !rev_app_distr in E. revert E H H'.
  rewrite enumerate_words. simpl. intros E H H'.
  repeat (destruct H as [H | H]; [injection H as <- <-|]);
    try contradiction;
    repeat (destruct H' as [H' | H']; [injection H' as <- <-|]);
    try contradiction;
    first [reflexivity | exfalso; cbn in E; congruence].
Qed.

(** No word ends one character before the end of another. *)
Lemma word_no_early_end (k k' : Z) (w w' x y : pystr) (c : ascii) :
  In (k, w) (enumerate word_numbers) ->
  In (k', w') (enumerate word_numbers) ->
  x ++ w' ++ [c] = y ++ w -> False.
Proof.
  intros H H' E. apply (f_equal (@rev ascii)) in E.
  rewrite !rev_app_distr in E. revert E H H'.
  rewrite enumerate_words. simpl. intros E H H'.
  repeat (destruct H as [H | H]; [injection H as <- <-|]);
    try contradiction;
    repeat (destruct H' as [H' | H']; [injection H' as <- <-|]);
    try contradiction;
    cbn in E; congruence.
Qed.

(** *** The two windows *)

Lemma left_word_split (line : pystr) (i : Z) (w : pystr) :
  0 <= i <= len line ->
  exists pre post,
    line = pre ++ left_word line i w ++ post /\ len pre = i /\
    len (left_word line i w) <= len w.
Proof.
  intros Hi. unfold left_word, slice, clip.
  pose proof (len_nonneg w) as Hw.
  destruct (Z.ltb_spec i 0); [lia|].
  destruct (Z.ltb_spec (i + len w) 0); [lia|].
  set (lo := Z.to_nat (Z.min i (len line))).
  set (k := Z.to_nat _).
  exists (firstn lo line), (skipn k (skipn lo line)).
  rewrite firstn_skipn, firstn_skipn. split; [reflexivity|].
  unfold len in *. rewrite length_firstn, length_firstn, length_skipn.
  subst lo k. split; lia.
Qed.

Lemma right_word_split (line : pystr) (i : Z) (w : pystr) :
  0 <= i < len line -> w <> [] ->
  exists pre post,
    line = pre ++ right_word line i w ++ post /\ len post = i /\
    len (right_word line i w) <= len w + (if i =? 0 then 0 else 1).
Proof.
  intros Hi Hne.
  assert (Hw : 0 < len w).
  { destruct w; [congruence|]. rewrite len_cons.
    pose proof (len_nonneg w). lia. }
  unfold right_word. destruct (Z.eqb_spec i 0) as [-> | Hi0];
    unfold slice, clip.
  - destruct (Z.ltb_spec (- len w) 0); [|lia].
    set (lo := Z.to_nat (Z.max (- len w + len line) 0)).
    set (k := Z.to_nat _).
    exists (firstn lo line), (skipn k (skipn lo line)).
    rewrite firstn_skipn, firstn_skipn. split; [reflexivity|].
    unfold len in *.
    rewrite length_firstn, !length_skipn. subst lo k. split; lia.
  - destruct (Z.ltb_spec (- (i + len w + 1)) 0); [|lia].
    destruct (Z.ltb_spec (- i) 0); [|lia].
    set (lo := Z.to_nat (Z.max (- (i + len w + 1) + len line) 0)).
    set (k := Z.to_nat _).
    exists (firstn lo line), (skipn k (skipn lo line)).
    rewrite firstn_skipn, firstn_skipn. split; [reflexivity|].
    unfold len in *.
    rewrite length_firstn, !length_skipn. subst lo k. split; lia.
Qed.

(** A hit of the forward search at step [i] is the word standing at
    place [i]. *)
Lemma left_word_hit (line : pystr) (i : Z) (w : pystr) :
  0 <= i <= len line ->
  contains w (left_word line i w) = true ->
  exists pre post, line = pre ++ w ++ post /\ len pre = i.
Proof.
  intros Hi Hc. destruct (left_word_split line i w Hi) as (pre & post & E & L & Hl).
  apply contains_occurs in Hc. destruct Hc as (a & b & Hab).
  rewrite Hab, !len_app in Hl.
  pose proof (len_nonneg a). pose proof (len_nonneg b).
  assert (a = []) by (apply len_nil; lia).
  assert (b = []) by (apply len_nil; lia).
  subst a b. rewrite Hab in E. cbn [app] in E. rewrite app_nil_r in E.
  exists pre, post. split; [exact E | exact L].
Qed.

(** A hit of the backward search at step [i] is a word that ends [i]
    characters before the end of the line or, after the first step, one
    character further left. *)
Lemma right_word_hit (line : pystr) (i : Z) (w : pystr) :
  0 <= i < len line -> w <> [] ->
  contains w (right_word line i w) = true ->
  exists pre post, line = pre ++ w ++ post /\
    (len post = i \/ (len post = i + 1 /\ 1 <= i)).
Proof.
  intros Hi Hne Hc.
  destruct (right_word_split line i w Hi Hne) as (pre & post & E & L & Hl).
  apply contains_occurs in Hc. destruct Hc as (a & b & Hab).
  rewrite Hab, !len_app in Hl.
  pose proof (len_nonneg a). pose proof (len_nonneg b).
  exists (pre ++ a), (b ++ post). split.
  - rewrite E, Hab, <- !app_assoc. reflexivity.
  - rewrite len_app. destruct (Z.eqb_spec i 0); [left; lia|].
    destruct b as [|y b]; [left; simpl; lia|].
    right. rewrite len_cons in *. pose proof (len_nonneg b). lia.
Qed.

(** A word that ends [len post] characters before the end is a hit of
    the backward search at that step. *)
Lemma right_word_at (pre w post : pystr) :
  w <> [] ->
  contains w (right_word (pre ++ w ++ post) (len post) w) = true.
Proof.
  intros Hne. apply contains_occurs. unfold right_word.
  destruct post as [|x post].
  - simpl. rewrite app_nil_r. rewrite slice_tail by exact Hne.
    apply occurs_refl.
  - destruct (Z.eqb_spec (len (x :: post)) 0) as [E|_].
    + rewrite len_cons in E. pose proof (len_nonneg post). lia.
    + apply slice_back. discriminate.
Qed.

End TokenFacts.

(** *** One side of the word loop *)

Section WordSide.

Variables (line : pystr) (i : Z).
Variables (side : cursors -> option Z) (hit : pystr -> bool).

Hypothesis side_body : forall st k w,
  side (word_body line i st k w) =
  match side st with
  | Some a => Some a
  | None => if hit w then Some (k + 1) else None
  end.

Hypothesis side_open : forall st, side st = None -> both_found st = false.

Lemma side_keep (ws : list (Z * pystr)) (st : cursors) (a : Z) :
  side st = Some a -> side (word_loop line i ws st) = Some a.
Proof.
  revert st. induction ws as [|[k w] ws IH]; intros st H; cbn [word_loop].
  - exact H.
  - assert (H' : side (word_body line i st k w) = Some a)
      by (rewrite side_body, H; reflexivity).
    destruct (both_found _); [exact H' | apply IH; exact H'].
Qed.

Lemma side_unique (ws : list (Z * pystr)) (st : cursors) (k : Z) :
  side st = None ->
  (forall k' w', In (k', w') ws -> hit w' = true -> k' = k) ->
  side (word_loop line i ws st) = None \/
  side (word_loop line i ws st) = Some (k + 1).
Proof.
  revert st. induction ws as [|[k0 w0] ws IH]; intros st H U;
    cbn [word_loop].
  - left. exact H.
  - pose proof (side_body st k0 w0) as B. rewrite H in B.
    destruct (hit w0) eqn:E.
    + pose proof (U k0 w0 (or_introl eq_refl) E) as Ek. subst k0.
      right. destruct (both_found _); [exact B | apply side_keep; exact B].
    + rewrite (side_open _ B). apply IH; [exact B|].
      intros k' w' Hin. apply U. right. exact Hin.
Qed.

Lemma side_stay (ws : list (Z * pystr)) (st : cursors) :
  side st = None ->
  (forall k w, In (k, w) ws -> hit w = false) ->
  side (word_loop line i ws st) = None.
Proof.
  revert st. induction ws as [|[k0 w0] ws IH]; intros st H U;
    cbn [word_loop]; [exact H|].
  pose proof (side_body st k0 w0) as B.
  rewrite H, (U k0 w0 (or_introl eq_refl)) in B.
  rewrite (side_open _ B). apply IH; [exact B|].
  intros k w Hin. apply (U k w). right. exact Hin.
Qed.

Lemma side_found (ws : list (Z * pystr)) (st : cursors) (k : Z) (w : pystr) :
  side st = None -> In (k, w) ws -> hit w = true ->
  (forall k' w', In (k', w') ws -> hit w' = true -> k' = k) ->
  side (word_loop line i ws st) = Some (k + 1).
Proof.
  revert st. induction ws as [|[k0 w0] ws IH]; intros st H Hin Hw U;
    cbn [word_loop]; [destruct Hin|].
  pose proof (side_body st k0 w0) as B. rewrite H in B.
  destruct (hit w0) eqn:E.
  - pose proof (U k0 w0 (or_introl eq_refl) E) as Ek. subst k0.
    destruct (both_found _); [exact B | apply side_keep; exact B].
  - rewrite (side_open _ B).
    destruct Hin as [Hin | Hin]; [injection Hin as <- <-; congruence|].
    apply IH; auto. intros k' w' Hin'. apply U. right. exact Hin'.
Qed.

End WordSide.

(** *** One side of the scan *)

Lemma scan_body_step (line : pystr) (wc : bool) (i : Z) (st st' : cursors) :
  scan_body line wc i st = Ok st' ->
  exists lc rc,
    getitem line i = Ok lc /\ getitem line (- (i + 1)) = Ok rc /\
    st' = step_state line wc i st lc rc.
Proof. apply scan_body_inv. Qed.

Section ScanSide.

Variables (line : pystr) (wc : bool).
Variables (side : cursors -> option Z) (v pos : Z).

Hypothesis side_open : forall st, side st = None -> both_found st = false.

Hypothesis keep : forall i st lc rc,
  side st = Some v -> side (step_state line wc i st lc rc) = Some v.

Hypothesis before : forall i st lc rc,
  0 <= i < pos ->
  getitem line i = Ok lc -> getitem line (- (i + 1)) = Ok rc ->
  side st = None ->
  side (step_state line wc i st lc rc) = None \/
  side (step_state line wc i st lc rc) = Some v.

Hypothesis at_pos : forall st lc rc,
  getitem line pos = Ok lc -> getitem line (- (pos + 1)) = Ok rc ->
  side st = None ->
  side (step_state line wc pos st lc rc) = Some v.

Lemma scan_loop_side (m k : nat) (st st' : cursors) :
  scan_loop line wc (map Z.of_nat (seq k m)) st = Ok st' ->
  side st = Some v \/ (side st = None /\ Z.of_nat k <= pos) ->
  side st' = Some v \/ (side st' = None /\ Z.of_nat (k + m) <= pos).
Proof.
  revert k st. induction m as [|m IH]; intros k st H Q;
    cbn [seq map scan_loop] in H.
  - apply Ok_inj in H. subst st'. rewrite Nat.add_0_r. exact Q.
  - destruct (scan_body line wc (Z.of_nat k) st) as [st1|e] eqn:B;
      cbn [bind] in H; [|discriminate].
    apply scan_body_step in B. destruct B as (lc & rc & Hl & Hr & E).
    assert (Q1 : side st1 = Some v \/
                 (side st1 = None /\ Z.of_nat (S k) <= pos)).
    { rewrite E. destruct Q as [Q | [Q Hk]].
      - left. apply keep. exact Q.
      - destruct (Z.eq_dec (Z.of_nat k) pos) as [Ek | Nk].
        + left. rewrite Ek in *. apply at_pos; assumption.
        + destruct (before (Z.of_nat k) st lc rc) as [N | S]; auto;
            [lia | right; split; [exact N | lia]]. }
    destruct (both_found st1) eqn:BF.
    + apply Ok_inj in H. subst st'. destruct Q1 as [Q1 | [Q1 _]].
      * left. exact Q1.
      * rewrite (side_open _ Q1) in BF. discriminate.
    + replace (k + S m)%nat with (S k + m)%nat by lia.
      apply (IH (S k) st1); assumption.
Qed.

Lemma scan_side (st' : cursors) :
  side (Cursors None None) = None -> 0 <= pos < len line ->
  scan line wc = Ok st' -> side st' = Some v.
Proof.
  intros Hinit Hpos H. unfold scan, range, len in H.
  rewrite Nat2Z.id in H.
  destruct (scan_loop_side _ 0 _ _ H) as [S | [_ N]].
  - right. split; [exact Hinit | simpl; lia].
  - exact S.
  - unfold len in Hpos. simpl in N. lia.
Qed.

End ScanSide.

(** *** The forward search *)

Section FirstLast.

Variables (wc : bool) (line pre tok post : pystr) (v : Z).

Hypothesis Htok : token wc tok v.
Hypothesis Hline : line = pre ++ tok ++ post.

Lemma token_nonempty : tok <> [].
Proof.
  destruct Htok as [c _ | k w _ Hin]; [discriminate|].
  apply (enumerate_words_In k w Hin).
Qed.

Lemma token_range : 0 <= v <= 9.
Proof.
  destruct Htok as [c Hc | k w _ Hin].
  - apply digit_value_range. exact Hc.
  - pose proof (word_value k w Hin). lia.
Qed.

Lemma token_positions :
  0 <= len pre < len line /\ 0 <= len post < len line.
Proof.
  rewrite Hline, !len_app.
  pose proof (len_nonneg pre). pose proof (len_nonneg post).
  pose proof token_nonempty as Hne.
  destruct tok as [|c t]; [congruence|]. rewrite len_cons.
  pose proof (len_nonneg t). lia.
Qed.

Lemma step_first_keep (i : Z) (st : cursors) (lc rc : ascii) (a : Z) :
  first_num st = Some a ->
  first_num (step_state line wc i st lc rc) = Some a.
Proof.
  intros H.
  assert (D : first_num (digit_step st lc rc) = Some a)
    by (rewrite digit_step_first, H; reflexivity).
  unfold step_state. destruct wc; [|exact D].
  apply (side_keep line i first_num
           (fun w => contains w (left_word line i w))
           (word_body_first line i)).
  exact D.
Qed.

Lemma step_last_keep (i : Z) (st : cursors) (lc rc : ascii) (a : Z) :
  last_num st = Some a ->
  last_num (step_state line wc i st lc rc) = Some a.
Proof.
  intros H.
  assert (D : last_num (digit_step st lc rc) = Some a)
    by (rewrite digit_step_last, H; reflexivity).
  unfold step_state. destruct wc; [|exact D].
  apply (side_keep line i last_num
           (fun w => contains w (right_word line i w))
           (word_body_last line i)).
  exact D.
Qed.

Section Forward.

Hypothesis Hleft : forall pre' tok' post' v',
  line = pre' ++ tok' ++ post' -> token wc tok' v' -> len pre <= len pre'.

Lemma step_first_before (i : Z) (st : cursors) (lc rc : ascii) :
  0 <= i < len pre ->
  getitem line i = Ok lc -> getitem line (- (i + 1)) = Ok rc ->
  first_num st = None ->
  first_num (step_state line wc i st lc rc) = None \/
  first_num (step_state line wc i st lc rc) = Some v.
Proof.
  intros Hi Hl _ H. left.
  pose proof token_positions as [Hp _].
  assert (Dl : isdigit lc = false).
  { destruct (isdigit lc) eqn:E; [|reflexivity]. exfalso.
    destruct (getitem_split_front line i lc ltac:(lia) Hl) as (a & b & Ea & La).
    pose proof (Hleft a [lc] b _ Ea (token_digit wc lc E)). lia. }
  assert (D : first_num (digit_step st lc rc) = None)
    by (rewrite digit_step_first, H, Dl; reflexivity).
  unfold step_state. destruct wc eqn:Ewc; [|exact D].
  apply (side_stay line i first_num
           (fun w => contains w (left_word line i w))
           (word_body_first line i) both_found_first); [exact D|].
  intros k w Hin. destruct (contains w (left_word line i w)) eqn:E;
    [|reflexivity]. exfalso.
  destruct (left_word_hit line i w ltac:(lia) E) as (a & b & Ea & La).
  pose proof (Hleft a w b _ Ea (token_word true k w eq_refl Hin)). lia.
Qed.

Lemma step_first_at (st : cursors) (lc rc : ascii) :
  getitem line (len pre) = Ok lc ->
  getitem line (- (len pre + 1)) = Ok rc ->
  first_num st = None ->
  first_num (step_state line wc (len pre) st lc rc) = Some v.
Proof.
  intros Hl _ H. pose proof token_positions as [Hp _].
  destruct Htok as [c Hc | k w Hwc Hin].
  - assert (lc = c).
    { rewrite Hline in Hl. cbn [app] in Hl.
      rewrite getitem_front in Hl. apply Ok_inj in Hl. congruence. }
    subst lc.
    assert (D : first_num (digit_step st c rc) = Some (digit_value c))
      by (rewrite digit_step_first, H, Hc; reflexivity).
    unfold step_state. destruct wc; [|exact D].
    apply (side_keep line (len pre) first_num
             (fun w => contains w (left_word line (len pre) w))
             (word_body_first line (len pre))).
    exact D.
  - pose proof (word_no_digit k w Hin) as Hnd.
    destruct w as [|c0 w0]; [exfalso; apply (enumerate_words_In k [] Hin);
                             reflexivity|].
    assert (lc = c0).
    { rewrite Hline in Hl. cbn [app] in Hl.
      rewrite getitem_front in Hl. apply Ok_inj in Hl. congruence. }
    subst lc.
    assert (D : first_num (digit_step st c0 rc) = None).
    { rewrite digit_step_first, H. inversion Hnd as [|? ? Hc0 _].
      rewrite Hc0. reflexivity. }
    unfold step_state. rewrite Hwc.
    apply (side_found line (len pre) first_num
             (fun w => contains w (left_word line (len pre) w))
             (word_body_first line (len pre)) both_found_first
             _ _ k (c0 :: w0)); [exact D | exact Hin | |].
    + rewrite Hline. unfold left_word. rewrite slice_at.
      apply contains_occurs, occurs_refl.
    + intros k' w' Hin' E.
      destruct (left_word_hit line (len pre) w' ltac:(lia) E)
        as (a & b & Ea & La).
      rewrite Hline in Ea.
      destruct (app_inv_len pre a _ _ Ea) as [_ Eb];
        [unfold len in La; lia|].
      symmetry. eapply (word_prefix_unique k k'); eauto.
Qed.

Lemma scan_first (st : cursors) :
  scan line wc = Ok st -> first_num st = Some v.
Proof.
  intros H.
  apply (scan_side line wc first_num v (len pre) both_found_first
           (fun i st lc rc => step_first_keep i st lc rc v)
           step_first_before step_first_at st);
    [reflexivity | apply token_positions | exact H].
Qed.

End Forward.

(** *** The backward search *)

Section Backward.

Hypothesis Hright : forall pre' tok' post' v',
  line = pre' ++ tok' ++ post' -> token wc tok' v' -> len post <= len post'.

Lemma step_last_before (i : Z) (st : cursors) (lc rc : ascii) :
  0 <= i < len post ->
  getitem line i = Ok lc -> getitem line (- (i + 1)) = Ok rc ->
  last_num st = None ->
  last_num (step_state line wc i st lc rc) = None \/
  last_num (step_state line wc i st lc rc) = Some v.
Proof.
  intros Hi _ Hr H.
  pose proof token_positions as [_ Hp].
  assert (Dr : isdigit rc = false).
  { destruct (isdigit rc) eqn:E; [|reflexivity]. exfalso.
    destruct (getitem_split_back line i rc ltac:(lia) Hr) as (a & b & Ea & Lb).
    pose proof (Hright a [rc] b _ Ea (token_digit wc rc E)). lia. }
  assert (D : last_num (digit_step st lc rc) = None)
    by (rewrite digit_step_last, H, Dr; reflexivity).
  unfold step_state. destruct wc eqn:Ewc; [|left; exact D].
  (* a word found at this step ends where the last token ends *)
  assert (Hend : forall k' w', In (k', w') (enumerate word_numbers) ->
            contains w' (right_word line i w') = true ->
            exists a, a ++ w' = pre ++ tok).
  { intros k' w' Hin E.
    destruct (right_word_hit line i w' ltac:(lia)
                (proj2 (proj2 (enumerate_words_In k' w' Hin))) E)
      as (a & b & Ea & Lb).
    pose proof (Hright a w' b _ Ea (token_word true k' w' eq_refl Hin)) as Hb.
    destruct Lb as [Lb | [Lb _]]; [lia|].
    exists a. rewrite Hline in Ea.
    rewrite (app_assoc pre), (app_assoc a) in Ea.
    apply (app_inv_len_tail _ _ _ _ (eq_sym Ea)). unfold len in *. lia. }
  destruct Htok as [c Hc | k w _ Hin].
  - left.
    apply (side_stay line i last_num
             (fun w => contains w (right_word line i w))
             (word_body_last line i) both_found_last); [exact D|].
    intros k' w' Hin'. destruct (contains w' (right_word line i w')) eqn:E;
      [|reflexivity]. exfalso.
    destruct (Hend k' w' Hin' E) as [a Ea].
    pose proof (word_no_digit k' w' Hin') as Hnd.
    destruct (exists_last (proj2 (proj2 (enumerate_words_In k' w' Hin'))))
      as (w0 & l & ->).
    rewrite app_assoc in Ea. apply app_inj_tail in Ea. destruct Ea as [_ ->].
    rewrite Forall_forall in Hnd.
    rewrite (Hnd c) in Hc; [discriminate|].
    apply in_or_app. right. left. reflexivity.
  - apply (side_unique line i last_num
             (fun w => contains w (right_word line i w))
             (word_body_last line i) both_found_last); [exact D|].
    intros k' w' Hin' E. destruct (Hend k' w' Hin' E) as [a Ea].
    eapply (word_suffix_unique k' k); eauto.
Qed.

Lemma step_last_at (st : cursors) (lc rc : ascii) :
  getitem line (len post) = Ok lc ->
  getitem line (- (len post + 1)) = Ok rc ->
  last_num st = None ->
  last_num (step_state line wc (len post) st lc rc) = Some v.
Proof.
  intros _ Hr H. pose proof token_positions as [_ Hp].
  destruct Htok as [c Hc | k w Hwc Hin].
  - assert (rc = c).
    { rewrite Hline in Hr. cbn [app] in Hr.
      rewrite getitem_back in Hr. apply Ok_inj in Hr. congruence. }
    subst rc.
    assert (D : last_num (digit_step st lc c) = Some (digit_value c))
      by (rewrite digit_step_last, H, Hc; reflexivity).
    unfold step_state. destruct wc; [|exact D].
    apply (side_keep line (len post) last_num
             (fun w => contains w (right_word line (len post) w))
             (word_body_last line (len post))).
    exact D.
  - pose proof (word_no_digit k w Hin) as Hnd.
    pose proof (proj2 (proj2 (enumerate_words_In k w Hin))) as Hne.
    destruct (exists_last Hne) as (w0 & l & Ew).
    assert (El : line = (pre ++ w0) ++ l :: post).
    { rewrite Hline, Ew, <- !app_assoc. reflexivity. }
    assert (rc = l).
    { rewrite El in Hr. rewrite getitem_back in Hr.
      apply Ok_inj in Hr. congruence. }
    subst rc.
    assert (D : last_num (digit_step st lc l) = None).
    { rewrite digit_step_last, H. rewrite Forall_forall in Hnd.
      rewrite (Hnd l); [reflexivity|].
      rewrite Ew. apply in_or_app. right. left. reflexivity. }
    unfold step_state. rewrite Hwc.
    apply (side_found line (len post) last_num
             (fun w => contains w (right_word line (len post) w))
             (word_body_last line (len post)) both_found_last
             _ _ k w); [exact D | exact Hin | |].
    + rewrite Hline. apply right_word_at. exact Hne.
    + intros k' w' Hin' E.
      destruct (right_word_hit line (len post) w' ltac:(lia)
                  (proj2 (proj2 (enumerate_words_In k' w' Hin'))) E)
        as (a & b & Ea & Lb).
      destruct Lb as [Lb | [Lb _]].
      * rewrite Hline in Ea.
        rewrite (app_assoc pre), (app_assoc a) in Ea.
        destruct (app_inv_len_tail _ _ _ _ (eq_sym Ea)) as [Ea' _];
          [unfold len in *; lia|].
        eapply (word_suffix_unique k' k); eauto.
      * exfalso. rewrite El in Ea. rewrite (app_assoc a) in Ea.
        destruct (app_inv_len_tail _ _ _ _ (eq_sym Ea)) as [Ea' _];
          [unfold len in *; simpl; lia|].
        apply (word_no_early_end k k' w w' a pre l Hin Hin').
        rewrite Ew, (app_assoc a), Ea', <- app_assoc. reflexivity.
Qed.

Lemma scan_last (st : cursors) :
  scan line wc = Ok st -> last_num st = Some v.
Proof.
  intros H.
  apply (scan_side line wc last_num v (len post) both_found_last
           (fun i st lc rc => step_last_keep i st lc rc v)
           step_last_before step_last_at st);
    [reflexivity | apply token_positions | exact H].
Qed.

End Backward.

End FirstLast.

(** *** The decoded value *)

Section DecodeFacts.

Lemma decode_line_tokens (wc : bool) (line : pystr)
    (pre1 tok1 post1 pre2 tok2 post2 : pystr) (v1 v2 : Z) :
  token wc tok1 v1 -> first_token wc line pre1 tok1 post1 ->
  token wc tok2 v2 -> last_token wc line pre2 tok2 post2 ->
  decode_line line wc = Ok (Some (10 * v1 + v2)).
Proof.
  intros T1 [E1 L1] T2 [E2 L2].
  destruct (scan_total line wc) as (st & Hs & _).
  pose proof (scan_first wc line pre1 tok1 post1 v1 T1 E1 L1 st Hs) as F.
  pose proof (scan_last wc line pre2 tok2 post2 v2 T2 E2 L2 st Hs) as L.
  unfold decode_line. rewrite Hs. cbn [bind]. rewrite F, L.
  rewrite int_concat;
    [reflexivity | eapply token_range; [exact T1 | exact E1]
                 | eapply token_range; [exact T2 | exact E2]].
Qed.

Lemma scan_tokens (wc : bool) (line : pystr)
    (pre1 tok1 post1 pre2 tok2 post2 : pystr) (v1 v2 : Z) :
  token wc tok1 v1 -> first_token wc line pre1 tok1 post1 ->
  token wc tok2 v2 -> last_token wc line pre2 tok2 post2 ->
  scan line wc = Ok (Cursors (Some v1) (Some v2)).
Proof.
  intros T1 [E1 L1] T2 [E2 L2].
  destruct (scan_total line wc) as (st & Hs & _).
  pose proof (scan_first wc line pre1 tok1 post1 v1 T1 E1 L1 st Hs) as F.
  pose proof (scan_last wc line pre2 tok2 post2 v2 T2 E2 L2 st Hs) as L.
  rewrite Hs. destruct st as [f l]. cbn [first_num last_num] in F, L.
  rewrite F, L. reflexivity.
Qed.

Lemma In_prefix {A : Type} (pre pre' x y : list A) (c : A) :
  pre ++ x = pre' ++ c :: y ->
  (List.length pre' < List.length pre)%nat -> In c pre.
Proof.
  revert pre. induction pre' as [|q qs IH]; intros [|p ps] E L;
    simpl in L; try lia.
  - simpl in E. injection E as -> _. left. reflexivity.
  - simpl in E. injection E as _ E. right. apply (IH ps E). lia.
Qed.

Lemma In_suffix {A : Type} (post post' x y : list A) (c : A) :
  x ++ post = y ++ c :: post' ->
  (List.length post' < List.length post)%nat -> In c post.
Proof.
  intros E L. apply in_rev.
  apply (In_prefix (rev post) (rev post') (rev x) (rev y) c).
  - apply (f_equal (@rev A)) in E.
    rewrite rev_app_distr in E. rewrite E.
    change (y ++ c :: post') with (y ++ [c] ++ post').
    rewrite !rev_app_distr, <- app_assoc. reflexivity.
  - rewrite !length_rev. exact L.
Qed.

Lemma token_no_words (tok : pystr) (v : Z) :
  token false tok v -> exists c, isdigit c = true /\ tok = [c] /\
                                 v = digit_value c.
Proof.
  intros [c Hc | k w Hwc _]; [eauto | discriminate].
Qed.

Lemma first_digit_token (pre post : pystr) (c : ascii) :
  Forall (fun x => isdigit x = false) pre ->
  first_token false (pre ++ c :: post) pre [c] post.
Proof.
  intros Hpre. split; [reflexivity|].
  intros pre' tok' post' v' E T.
  destruct (token_no_words tok' v' T) as (d & Hd & -> & _).
  destruct (Z.le_gt_cases (len pre) (len pre')) as [|G]; [assumption|].
  exfalso. rewrite Forall_forall in Hpre.
  rewrite (Hpre d) in Hd; [discriminate|].
  apply (In_prefix pre pre' (c :: post) post' d E). unfold len in G. lia.
Qed.

Lemma last_digit_token (pre post : pystr) (c : ascii) :
  Forall (fun x => isdigit x = false) post ->
  last_token false (pre ++ c :: post) pre [c] post.
Proof.
  intros Hpost. split; [reflexivity|].
  intros pre' tok' post' v' E T.
  destruct (token_no_words tok' v' T) as (d & Hd & -> & _).
  destruct (Z.le_gt_cases (len post) (len post')) as [|G]; [assumption|].
  exfalso. rewrite Forall_forall in Hpost.
  rewrite (Hpost d) in Hd; [discriminate|].
  apply (In_suffix post post' (pre ++ [c]) pre' d).
  - rewrite <- app_assoc. exact E.
  - unfold len in G. lia.
Qed.

(** Without a word in the line the loop over the words changes nothing. *)
Lemma scan_body_no_words (line : pystr) (i : Z) (st : cursors) :
  ~ has_word line ->
  scan_body line true i st = scan_body line false i st.
Proof.
  intros Hw.
  destruct (getitem line i) as [lc|e] eqn:Hl;
    [|unfold scan_body; rewrite Hl; reflexivity].
  destruct (getitem line (- (i + 1))) as [rc|e] eqn:Hr;
    [|unfold scan_body; rewrite Hl, Hr; reflexivity].
  rewrite (scan_body_eq line true i st lc rc Hl Hr),
    (scan_body_eq line false i st lc rc Hl Hr).
  f_equal. apply word_loop_silent. intros k w Hin.
  apply enumerate_words_In in Hin. destruct Hin as (_ & Hin & _).
  assert (S : forall lo hi, contains w (slice line lo hi) = false).
  { intros lo hi. apply contains_not_occurs. intros Ho. apply Hw.
    exists w. split; [exact Hin|].
    eapply occurs_trans; [exact Ho | apply slice_occurs]. }
  split; [apply S|]. unfold right_word. destruct (i =? 0); apply S.
Qed.

Lemma scan_loop_no_words (line : pystr) (idxs : list Z) (st : cursors) :
  ~ has_word line ->
  scan_loop line true idxs st = scan_loop line false idxs st.
Proof.
  intros Hw. revert st. induction idxs as [|i idxs IH]; intros st;
    cbn [scan_loop]; [reflexivity|].
  rewrite (scan_body_no_words line i st Hw).
  destruct (scan_body line false i st) as [st1|e]; cbn [bind];
    [|reflexivity].
  destruct (both_found st1); [reflexivity | apply IH].
Qed.

Lemma In_dropwhile {A : Type} (p : A -> bool) (s : list A) (c : A) :
  In c s -> p c = false -> In c (dropwhile p s).
Proof.
  induction s as [|x s IH]; intros H Hc; [destruct H|].
  simpl. destruct (p x) eqn:E; [|exact H].
  destruct H as [-> | H]; [congruence | apply IH; assumption].
Qed.

Lemma dropwhile_In {A : Type} (p : A -> bool) (s : list A) (c : A) :
  In c (dropwhile p s) -> In c s.
Proof.
  induction s as [|x s IH]; intros H; [destruct H|].
  simpl in H. destruct (p x); [right; apply IH; exact H | exact H].
Qed.

Lemma has_digit_strip (line : pystr) :
  has_digit (strip line) <-> has_digit line.
Proof.
  unfold has_digit, strip, strip_by. split; intros (c & Hin & Hc);
    exists c; (split; [|exact Hc]).
  - apply in_rev in Hin. apply dropwhile_In in Hin.
    apply in_rev in Hin. apply dropwhile_In in Hin. exact Hin.
  - assert (Hs : isspace c = false).
    { destruct c as [[] [] [] [] [] [] [] []]; vm_compute in Hc |- *;
        solve [reflexivity | discriminate Hc]. }
    apply -> in_rev. apply In_dropwhile; [|exact Hs].
    apply -> in_rev. apply In_dropwhile; assumption.
Qed.

Lemma decode_line_digit (line : pystr) :
  (has_digit line ->
   exists v, decode_line line false = Ok (Some v) /\ 0 <= v <= 99) /\
  (~ has_digit line -> decode_line line false = Ok None).
Proof.
  split.
  - intros Hd.
    destruct (decode_line_of_scan line false)
      as [[Hs _] | (f & l & _ & Hf & Hl & H)].
    + exfalso.
      destruct (scan_first_none line false _ Hs eq_refl) as [Hn _].
      contradiction.
    + exists (10 * f + l). split; [exact H|].
      destruct (Hf f eq_refl) as [? _]. destruct (Hl l eq_refl) as [? _]. lia.
  - intros Hn. unfold decode_line.
    rewrite (scan_silent line false Hn); [reflexivity | discriminate].
Qed.

Lemma sum_loop_strip (lines : list pystr) (wc : bool) (total : Z)
    (out : list pystr) :
  sum_loop (map strip lines) wc total out = sum_loop lines wc total out.
Proof.
  revert total out. induction lines as [|line lines IH]; intros total out;
    cbn [map sum_loop]; [reflexivity|].
  assert (E : strip (strip line) = strip line) by apply strip_by_idempotent.
  rewrite E. destruct (decode_line (strip line) wc) as [v|e]; [|reflexivity].
  destruct (iadd total v); [apply IH | reflexivity].
Qed.

Lemma sum_loop_bounds (lines : list pystr) (total : Z) (out : list pystr) :
  Forall has_digit lines ->
  exists t, snd (sum_loop lines false total out) = Ok t /\
            total <= t <= total + 99 * len lines.
Proof.
  revert total out. induction lines as [|line lines IH]; intros total out H.
  - exists total. split; [reflexivity|]. change (len (@nil pystr)) with 0. lia.
  - inversion H as [|? ? Hd Hds]. subst. cbn [sum_loop].
    destruct (proj1 (decode_line_digit (strip line)))
      as (v & Hv & Hr); [apply has_digit_strip; exact Hd|].
    rewrite Hv. cbn [iadd].
    destruct (IH (total + v) (out ++ [strip line ++ str " " ++ repr_optional (Some v)]) Hds)
      as (t & Ht & Hb).
    exists t. split; [exact Ht|]. rewrite len_cons. lia.
Qed.

End DecodeFacts.

(** C4. With word correction the spelled-out digits count as the digits
    do, and the first match in scan order wins on each side, overlapping
    words included: of all the digits and words "one" to "nine" in the
    line, the forward search ends on the one that starts leftmost and
    the backward search on the one that ends rightmost, and
    [decode_line] returns ten times the value of the former plus the
    value of the latter. So "eightwothree" gives 83 (first "eight", last
    "three", the "two" in between is not used), "zoneight234" gives 14
    and "two1nine" gives 29. *)
Theorem decode_line_word_correction (line : pystr)
    (pre1 tok1 post1 pre2 tok2 post2 : pystr) (v1 v2 : Z)
    (Hfirst : token true tok1 v1)
    (Hleft : first_token true line pre1 tok1 post1)
    (Hlast : token true tok2 v2)
    (Hright : last_token true line pre2 tok2 post2) :
  scan line true = Ok (Cursors (Some v1) (Some v2)) /\
  decode_line line true = Ok (Some (10 * v1 + v2)) /\
  decode_line (str "eightwothree") true = Ok (Some 83) /\
  scan (str "eightwothree") true = Ok (Cursors (Some 8) (Some 3)) /\
  decode_line (str "zoneight234") true = Ok (Some 14) /\
  decode_line (str "two1nine") true = Ok (Some 29).
Proof.
  split; [exact (scan_tokens _ _ _ _ _ _ _ _ _ _ Hfirst Hleft Hlast Hright)|].
  split;
    [exact (decode_line_tokens _ _ _ _ _ _ _ _ _ _ Hfirst Hleft Hlast Hright)|].
  repeat split; vm_compute; reflexivity.
Qed.

Lemma decode_line_word_correction_witness :
  scan (str "zoneight234") true = Ok (Cursors (Some 1) (Some 4)) /\
  decode_line (str "zoneight234") true = Ok (Some 14).
Proof.
  assert (T1 : token true (str "one") 1).
  { apply (token_word true 0 (str "one") eq_refl).
    rewrite enumerate_words. left. reflexivity. }
  assert (F : first_token true (str "zoneight234")
                (str "z") (str "one") (str "ight234")).
  { split; [reflexivity|]. intros pre' tok' post' v' E T.
    destruct pre' as [|c pre']; [|unfold len; simpl; lia].
    exfalso. destruct T as [c Hc | k w _ Hin].
    - injection E as <-. discriminate Hc.
    - rewrite enumerate_words in Hin. simpl in Hin.
      repeat (destruct Hin as [Hin | Hin];
              [injection Hin as <- <-; discriminate E|]).
      exact Hin. }
  assert (T2 : token true (str "4") 4).
  { apply (token_digit true "4"%char eq_refl). }
  assert (L : last_token true (str "zoneight234")
                (str "zoneight23") (str "4") []).
  { split; [reflexivity|]. intros pre' tok' post' v' _ _.
    apply len_nonneg. }
  destruct (decode_line_word_correction _ _ _ _ _ _ _ _ _ T1 F T2 L)
    as (H1 & H2 & _).
  split; [exact H1 | exact H2].
Defined.

(** X15. [decode_line] returns ten times the value of the first token of
    the line plus the value of its last token, a token being an ASCII
    digit or, with word correction, one of the words "one" to "nine":
    first is the token that starts leftmost, last the one that ends
    rightmost, whether or not they overlap or are the same token. *)
Theorem decode_line_first_last (wc : bool) (line : pystr)
    (pre1 tok1 post1 pre2 tok2 post2 : pystr) (v1 v2 : Z)
    (Hfirst : token wc tok1 v1) (Hleft : first_token wc line pre1 tok1 post1)
    (Hlast : token wc tok2 v2) (Hright : last_token wc line pre2 tok2 post2) :
  decode_line line wc = Ok (Some (10 * v1 + v2)).
Proof. exact (decode_line_tokens _ _ _ _ _ _ _ _ _ _ Hfirst Hleft Hlast Hright). Qed.

Lemma decode_line_first_last_witness :
  decode_line (str "xtwone3four") true = Ok (Some 24).
Proof.
  apply (decode_line_first_last true (str "xtwone3four")
           (str "x") (str "two") (str "ne3four")
           (str "xtwone3") (str "four") [] 2 4).
  - apply (token_word true 1 (str "two") eq_refl).
    rewrite enumerate_words. right. left. reflexivity.
  - split; [reflexivity|]. intros pre' tok' post' v' E T.
    destruct pre' as [|c pre']; [|unfold len; simpl; lia].
    exfalso. destruct T as [c Hc | k w _ Hin].
    + injection E as <-. discriminate Hc.
    + rewrite enumerate_words in Hin. simpl in Hin.
      repeat (destruct Hin as [Hin | Hin];
              [injection Hin as <- <-; discriminate E|]).
      exact Hin.
  - apply (token_word true 3 (str "four") eq_refl).
    rewrite enumerate_words. do 3 right. left. reflexivity.
  - split; [reflexivity|]. intros pre' tok' post' v' _ _.
    apply len_nonneg.
Defined.

(** X16. Without word correction [decode_line] returns ten times the
    leftmost digit of the line plus its rightmost digit, whatever stands
    before, between and after them; a line with a single digit gives that
    digit twice. *)
Theorem decode_line_outer_digits (pre mid post : pystr) (a b : ascii)
    (Ha : isdigit a = true) (Hb : isdigit b = true)
    (Hpre : Forall (fun x => isdigit x = false) pre)
    (Hpost : Forall (fun x => isdigit x = false) post) :
  decode_line (pre ++ a :: mid ++ b :: post) false =
    Ok (Some (10 * digit_value a + digit_value b)) /\
  decode_line (pre ++ a :: post) false = Ok (Some (11 * digit_value a)).
Proof.
  split.
  - apply (decode_line_tokens false _ pre [a] (mid ++ b :: post)
             (pre ++ a :: mid) [b] post).
    + apply token_digit. exact Ha.
    + apply first_digit_token. exact Hpre.
    + apply token_digit. exact Hb.
    + replace (pre ++ a :: mid ++ b :: post)
        with ((pre ++ a :: mid) ++ b :: post)
        by (rewrite <- app_assoc; reflexivity).
      apply last_digit_token. exact Hpost.
  - replace (11 * digit_value a) with (10 * digit_value a + digit_value a)
      by lia.
    apply (decode_line_tokens false _ pre [a] post pre [a] post).
    + apply token_digit. exact Ha.
    + apply first_digit_token. exact Hpre.
    + apply token_digit. exact Ha.
    + apply last_digit_token. exact Hpost.
Qed.

Lemma decode_line_outer_digits_witness :
  decode_line (str "a1b2c3d4e5f") false = Ok (Some 15) /\
  decode_line (str "treb7uchet") false = Ok (Some 77).
Proof.
  split.
  - apply (proj1 (decode_line_outer_digits (str "a") (str "b2c3d4e") (str "f")
                    "1" "5" eq_refl eq_refl
                    ltac:(repeat constructor) ltac:(repeat constructor))).
  - apply (proj2 (decode_line_outer_digits (str "treb") [] (str "uchet")
                    "7" "7" eq_refl eq_refl
                    ltac:(repeat constructor) ltac:(repeat constructor))).
Defined.

(** X17. Word correction changes nothing on a line in which none of the
    words "one" to "nine" occurs: [decode_line(line, True)] is
    [decode_line(line, False)]. *)
Theorem word_correction_without_words (line : pystr)
    (Hline : ~ has_word line) :
  decode_line line true = decode_line line false.
Proof.
  unfold decode_line, scan.
  rewrite (scan_loop_no_words line _ _ Hline). reflexivity.
Qed.

Lemma word_correction_without_words_witness :
  decode_line (str "a1b2") true = decode_line (str "a1b2") false.
Proof.
  apply (word_correction_without_words (str "a1b2")).
  intros (w & Hin & Ho). apply contains_occurs in Ho.
  unfold word_numbers in Hin. simpl in Hin.
  repeat (destruct Hin as [<- | Hin]; [vm_compute in Ho; discriminate Ho|]).
  exact Hin.
Defined.

(** X18. [sum_lines] depends on each line only through the line without
    the blanks around it: fed the stripped lines it prints and returns
    the same, so indentation and line terminators do not count. *)
Theorem sum_lines_ignores_blanks (lines : list pystr) (wc : bool) :
  sum_lines (map strip lines) wc = sum_lines lines wc.
Proof. apply sum_loop_strip. Qed.

(** X19. Without word correction [sum_lines] returns a total when every
    line holds a digit, a total between 0 and 99 times the number of
    lines, and raises [TypeError] when some line holds none. *)
Theorem sum_lines_digit_lines (lines : list pystr) :
  (Forall has_digit lines ->
   exists t, snd (sum_lines lines false) = Ok t /\
             0 <= t <= 99 * len lines) /\
  (Exists (fun line => ~ has_digit line) lines ->
   snd (sum_lines lines false) = Raise TypeError).
Proof.
  split.
  - intros H. destruct (sum_loop_bounds lines 0 [] H) as (t & Ht & Hb).
    exists t. split; [exact Ht | lia].
  - intros H. apply sum_loop_none.
    apply Exists_exists in H. destruct H as (line & Hin & Hn).
    apply Exists_exists. exists line. split; [exact Hin|].
    apply decode_line_digit. intros Hd. apply Hn, has_digit_strip, Hd.
Qed.

Lemma sum_lines_digit_lines_witness :
  (exists t, snd (sum_lines [str "1abc2" ++ [newline]; str "x7" ++ [newline]]
                            false) = Ok t /\ 0 <= t <= 99 * 2) /\
  snd (sum_lines [str "1abc2" ++ [newline]; str "abc" ++ [newline]] false)
  = Raise TypeError.
Proof.
  split.
  - apply (proj1 (sum_lines_digit_lines
                    [str "1abc2" ++ [newline]; str "x7" ++ [newline]])).
    constructor; [exists "1"%char; split; [left; reflexivity | reflexivity]|].
    constructor; [|constructor].
    exists "7"%char. split; [right; left; reflexivity | reflexivity].
  - apply (proj2 (sum_lines_digit_lines
                    [str "1abc2" ++ [newline]; str "abc" ++ [newline]])).
    apply Exists_cons_tl, Exists_cons_hd.
    intros (c & Hin & Hc). simpl in Hin.
    repeat (destruct Hin as [<- | Hin]; [discriminate Hc|]). exact Hin.
Defined.
